(** * ShaderGenerator: the concurrent shader compilation engine

    A shallow embedding of [ShaderGenerator/ShaderCompiler.cpp]: the shared
    compilation context, the body of [CompileWorker] and the orchestration of
    [CompileShader], followed by the properties established about them.

    Threads are modelled by interleaving: a pool is the shared context plus
    one control state per worker, and one step of the pool is one step of one
    worker.  A step is a critical section of the source, the write to
    [IsFailed], or a stretch of code that touches worker-local data only.  The
    one call on a shared container that the source makes with no mutex held,
    [Messages.emplace], is two steps, its lookup and its insertion: another
    worker can run between them.  When the calls of two workers overlap, the
    container promises nothing: the call may not come back, or come back with
    either answer and leave the set with any content.  A file name read past
    the end of its blob runs into whatever memory stands behind the blob.
    [WaitForMultipleObjects] waits for at most 64 threads.

    The command line tool of [ShaderGenerator/main.cpp] follows in the module
    [Main]. *)

From Stdlib Require Import ZArith Strings.Ascii Strings.String Strings.Byte.
From stdpp Require Import base option list gmap strings relations.

Local Open Scope string_scope.
Local Open Scope list_scope.
Local Open Scope Z_scope.

(** ** Data model *)

(** A buffer held by an [ID3DBlob]. *)
Definition Blob := list byte.

(** [OptionPermutation]: the work item.  The worker reads [Key] and
    [Defines]. *)
Record OptionPermutation := {
  Key : string;
  Defines : list (string * string);
}.

(** [ShaderCompilationArguments] as far as the engine reads it. *)
Record ShaderCompilationArguments := {
  IsDebug : bool;
  UseExternalDebugSymbols : bool;
  OptimizationLevel : Z;
}.

(** [ShaderInfo]; the type of the option declarations is left open. *)
Record ShaderInfo (ShaderOptions : Type) := {
  Path : string;
  EntryPoint : string;
  Target : string;
  Options : ShaderOptions;
}.
Arguments Path {_} _.
Arguments EntryPoint {_} _.
Arguments Target {_} _.
Arguments Options {_} _.

(** Modelled from the spec: the declaration of [CompiledShader] lives in
    ShaderCompiler.h.  The fields are the four the spec lists; their types
    follow the way the worker uses them ([Data.resize], [PdbData.resize],
    assignment of a C string to [PdbName]), so a field that was never written
    holds the empty value of [CompiledShader result{}]. *)
Record CompiledShader := {
  ShaderKey : string;
  Data : list byte;
  PdbName : string;
  PdbData : list byte;
}.

#[global] Instance byte_eq_decision : EqDecision byte := Byte.byte_eq_dec.
#[global] Instance OptionPermutation_eq_dec : EqDecision OptionPermutation.
Proof. solve_decision. Defined.
#[global] Instance CompiledShader_eq_dec : EqDecision CompiledShader.
Proof. solve_decision. Defined.

(** ** The compiler backend

    The Direct3D compiler is an external library.  Its entry points are taken
    as functions of their inputs and its flag constants as numbers; a null
    [ID3DBlob*] out-parameter is [None]. *)

(** [D3D_SHADER_MACRO]: two C strings, both null in the terminating entry. *)
Definition D3D_SHADER_MACRO : Type := option string * option string.

Inductive D3D_BLOB_PART := D3D_BLOB_PDB | D3D_BLOB_DEBUG_NAME.

Record CompileResult := {
  hr_succeeded : bool;          (* SUCCEEDED(hr) *)
  binary_blob : option Blob;    (* binary.put() *)
  errors_blob : option Blob;    (* errors.put() *)
}.

Record D3DCompiler := {
  D3DCOMPILE_DEBUG : Z;
  D3DCOMPILE_DEBUG_NAME_FOR_BINARY : Z;
  D3DCOMPILE_SKIP_OPTIMIZATION : Z;
  D3DCOMPILE_OPTIMIZATION_LEVEL0 : Z;
  D3DCOMPILE_OPTIMIZATION_LEVEL1 : Z;
  D3DCOMPILE_OPTIMIZATION_LEVEL2 : Z;
  D3DCOMPILE_OPTIMIZATION_LEVEL3 : Z;
  (* path, macros, entry point, target, flags *)
  D3DCompileFromFile :
    string → list D3D_SHADER_MACRO → string → string → Z → CompileResult;
  D3DGetBlobPart : Blob → D3D_BLOB_PART → option Blob;
  (* with D3DCOMPILER_STRIP_DEBUG_INFO *)
  D3DStripShader : Blob → option Blob;
}.

(** What goes wrong when the worker follows a pointer it must not follow. *)
Inductive fault :=
| NullDereference     (* [->] on a null [com_ptr] *)
| BufferOverread      (* a C string that is not terminated inside its blob *)
| DataRace.           (* a call on a container another thread is calling too *)

#[global] Instance fault_eq_dec : EqDecision fault.
Proof. solve_decision. Defined.

(** ** Worker-local computations *)

(** "Define macros": one entry per define, then the null terminator. *)
Definition define_macros (permutation : OptionPermutation) : list D3D_SHADER_MACRO :=
  map (λ define, (Some define.1, Some define.2)) (Defines permutation)
    ++ [(None, None)].

Section Flags.
Context (d3d : D3DCompiler).

(** "Define compilation flags", first statement. *)
Definition debug_flags (options : ShaderCompilationArguments) : Z :=
  let flags := 0 in
  if IsDebug options
  then Z.lor flags (Z.lor (D3DCOMPILE_DEBUG d3d) (D3DCOMPILE_DEBUG_NAME_FOR_BINARY d3d))
  else flags.

(** The [switch] on [OptimizationLevel]; no [default] label. *)
Definition optimization_switch (flags level : Z) : Z :=
  if level =? -1 then Z.lor flags (D3DCOMPILE_SKIP_OPTIMIZATION d3d)
  else if level =? 0 then Z.lor flags (D3DCOMPILE_OPTIMIZATION_LEVEL0 d3d)
  else if level =? 1 then Z.lor flags (D3DCOMPILE_OPTIMIZATION_LEVEL1 d3d)
  else if level =? 2 then Z.lor flags (D3DCOMPILE_OPTIMIZATION_LEVEL2 d3d)
  else if level =? 3 then Z.lor flags (D3DCOMPILE_OPTIMIZATION_LEVEL3 d3d)
  else flags.

Definition compilation_flags (options : ShaderCompilationArguments) : Z :=
  optimization_switch (debug_flags options) (OptimizationLevel options).
End Flags.

(** [sizeof(ShaderDebugName)]: two [uint16_t] fields, [Flags] and
    [NameLength]. *)
Definition sizeof_ShaderDebugName : nat := 4.

(** Reading a [const char*] into a [std::string]: the bytes up to the first
    zero byte.  [None] when the blob ends before a zero byte is met. *)
Fixpoint c_string (bytes : list byte) : option string :=
  match bytes with
  | [] => None
  | b :: rest =>
      if decide (b = x00) then Some ""
      else String (ascii_of_byte b) <$> c_string rest
  end.

(** [reinterpret_cast<const char*>(pDebugNameData + 1)], then the assignment
    to [result.PdbName]. *)
Definition debug_file_name (pdbName : Blob) : option string :=
  c_string (drop sizeof_ShaderDebugName pdbName).

(** The result of one fallible worker-local stretch. *)
Definition checked (A : Type) : Type := fault + A.

Definition deref {A} (p : option A) : checked A :=
  match p with Some a => inr a | None => inl NullDereference end.

#[global] Instance checked_bind : MBind checked :=
  λ A B k m, match m with inl f => inl f | inr a => k a end.

(** The compiler as the worker meets it when [behind] is what stands in
    memory behind the debug name blob: a name that is not terminated inside
    its blob is read on into [behind]. *)
Definition with_memory_behind (behind : list byte) (d3d : D3DCompiler) : D3DCompiler :=
  {| D3DCOMPILE_DEBUG := D3DCOMPILE_DEBUG d3d;
     D3DCOMPILE_DEBUG_NAME_FOR_BINARY := D3DCOMPILE_DEBUG_NAME_FOR_BINARY d3d;
     D3DCOMPILE_SKIP_OPTIMIZATION := D3DCOMPILE_SKIP_OPTIMIZATION d3d;
     D3DCOMPILE_OPTIMIZATION_LEVEL0 := D3DCOMPILE_OPTIMIZATION_LEVEL0 d3d;
     D3DCOMPILE_OPTIMIZATION_LEVEL1 := D3DCOMPILE_OPTIMIZATION_LEVEL1 d3d;
     D3DCOMPILE_OPTIMIZATION_LEVEL2 := D3DCOMPILE_OPTIMIZATION_LEVEL2 d3d;
     D3DCOMPILE_OPTIMIZATION_LEVEL3 := D3DCOMPILE_OPTIMIZATION_LEVEL3 d3d;
     D3DCompileFromFile := D3DCompileFromFile d3d;
     D3DGetBlobPart := λ binary part,
       match part with
       | D3D_BLOB_PDB => D3DGetBlobPart d3d binary part
       | D3D_BLOB_DEBUG_NAME => (λ name, name ++ behind) <$> D3DGetBlobPart d3d binary part
       end;
     D3DStripShader := D3DStripShader d3d |}.

Section PostProcess.
Context (d3d : D3DCompiler) (options : ShaderCompilationArguments).

(** "Get debug information": the block guarded by
    [IsDebug && UseExternalDebugSymbols].  Returns the updated result and
    the blob [binary] points to after the [swap]. *)
Definition get_debug_information (binary : option Blob) (result : CompiledShader)
  : checked (CompiledShader * option Blob) :=
  bin ← deref binary;
  let pdb := D3DGetBlobPart d3d bin D3D_BLOB_PDB in
  let pdbName := D3DGetBlobPart d3d bin D3D_BLOB_DEBUG_NAME in
  result' ←
    match pdb, pdbName with
    | Some pdbBytes, Some nameBytes =>
        match debug_file_name nameBytes with
        | Some fileName =>
            inr {| ShaderKey := ShaderKey result; Data := Data result;
                   PdbName := fileName; PdbData := pdbBytes |}
        | None => inl BufferOverread
        end
    | _, _ => inr result
    end;
  let stripped := D3DStripShader d3d bin in
  inr (result', stripped).

(** "Post process results": the body of [if (success)]. *)
Definition post_process (binary : option Blob) (result : CompiledShader)
  : checked CompiledShader :=
  '(result, binary) ←
    (if IsDebug options && UseExternalDebugSymbols options
     then get_debug_information binary result
     else inr (result, binary));
  bin ← deref binary;
  inr {| ShaderKey := ShaderKey result; Data := bin;
         PdbName := PdbName result; PdbData := PdbData result |}.
End PostProcess.

(** "Run compilation": the call the worker makes for one permutation. *)
Definition invoke_backend {O} (d3d : D3DCompiler) (shader : ShaderInfo O)
    (options : ShaderCompilationArguments) (permutation : OptionPermutation) : CompileResult :=
  let macros := define_macros permutation in
  let flags := compilation_flags d3d options in
  D3DCompileFromFile d3d (Path shader) macros (EntryPoint shader) (Target shader) flags.

(** One permutation from "Define result" up to the construction of the
    [stringstream]: the success flag, the result and the diagnostic text. *)
Definition compile_permutation {O} (d3d : D3DCompiler) (shader : ShaderInfo O)
    (options : ShaderCompilationArguments) (permutation : OptionPermutation)
  : checked (bool * CompiledShader * string) :=
  (* [CompiledShader result{}; result.Key = permutation->Key;] *)
  let result := {| ShaderKey := Key permutation; Data := []; PdbName := ""; PdbData := [] |} in
  let compiled := invoke_backend d3d shader options permutation in
  let success := hr_succeeded compiled in
  result ← (if success then post_process d3d options (binary_blob compiled) result
            else inr result);
  errors ← deref (errors_blob compiled);
  inr (success, result, string_of_list_byte errors).

(** ** Diagnostics: the line reader and the ignore pattern *)

Definition newline : ascii := "010"%char.
Definition carriage_return : ascii := "013"%char.

(** [getline(messages, message, '\n')] on a stream that still holds
    characters: the line extracted (the delimiter is consumed and dropped) and
    what remains in the stream. *)
Fixpoint getline (stream : string) : string * string :=
  match stream with
  | EmptyString => (EmptyString, EmptyString)
  | String c rest =>
      if Ascii.eqb c newline then (EmptyString, rest)
      else let '(message, remaining) := getline rest in (String c message, remaining)
  end.

Definition nul : ascii := "000"%char.

(** [message.c_str()] as [printf] reads it for [%s]: the characters before
    the first zero character. *)
Fixpoint c_str (message : string) : string :=
  match message with
  | EmptyString => EmptyString
  | String c rest => if Ascii.eqb c nul then EmptyString else String c (c_str rest)
  end.

(** The whole [while (getline(...))] loop as the list of lines it visits;
    [getline] fails, and the loop ends, once the stream is exhausted. *)
Fixpoint read_lines (fuel : nat) (stream : string) : list string :=
  match fuel, stream with
  | O, _ | _, EmptyString => []
  | S fuel', _ => let '(message, remaining) := getline stream in
                  message :: read_lines fuel' remaining
  end.

Definition diagnostic_lines (text : string) : list string :=
  read_lines (String.length text) text.

(** The fragment of ECMAScript regular expressions the pattern is written
    in.  [AnyChar] is [.]: every character but a line terminator. *)
Inductive regex :=
| NoMatch
| Epsilon
| Chr (c : ascii)
| AnyChar
| Cat (r1 r2 : regex)
| Alt (r1 r2 : regex)
| Star (r : regex).

Fixpoint literal (s : string) : regex :=
  match s with
  | EmptyString => Epsilon
  | String c rest => Cat (Chr c) (literal rest)
  end.

Definition line_terminator (c : ascii) : bool :=
  Ascii.eqb c newline || Ascii.eqb c carriage_return.

Fixpoint nullable (r : regex) : bool :=
  match r with
  | NoMatch | Chr _ | AnyChar => false
  | Epsilon | Star _ => true
  | Cat r1 r2 => nullable r1 && nullable r2
  | Alt r1 r2 => nullable r1 || nullable r2
  end.

(** What is left of [r] to match once [c] has been read. *)
Fixpoint derive (c : ascii) (r : regex) : regex :=
  match r with
  | NoMatch | Epsilon => NoMatch
  | Chr c' => if Ascii.eqb c c' then Epsilon else NoMatch
  | AnyChar => if line_terminator c then NoMatch else Epsilon
  | Cat r1 r2 =>
      if nullable r1 then Alt (Cat (derive c r1) r2) (derive c r2)
      else Cat (derive c r1) r2
  | Alt r1 r2 => Alt (derive c r1) (derive c r2)
  | Star r1 => Cat (derive c r1) (Star r1)
  end.

(** [regex_match(message, re)]: the whole of [message] must match. *)
Fixpoint regex_match (message : string) (re : regex) : bool :=
  match message with
  | EmptyString => nullable re
  | String c rest => regex_match rest (derive c re)
  end.

(** [".*: warning X3568: '(target|namespace|entry|option)' : unknown pragma ignored"] *)
Definition warningIgnoreRegex : regex :=
  Cat (Star AnyChar)
   (Cat (literal ": warning X3568: '")
    (Cat (Alt (literal "target")
          (Alt (literal "namespace") (Alt (literal "entry") (literal "option"))))
         (literal "' : unknown pragma ignored"))).

(** What it means for a string to match, read off the syntax. *)
Inductive matches : regex → string → Prop :=
| matches_epsilon : matches Epsilon EmptyString
| matches_chr c : matches (Chr c) (String c EmptyString)
| matches_any c : line_terminator c = false → matches AnyChar (String c EmptyString)
| matches_cat r1 r2 s1 s2 :
    matches r1 s1 → matches r2 s2 → matches (Cat r1 r2) (s1 +:+ s2)
| matches_alt_l r1 r2 s : matches r1 s → matches (Alt r1 r2) s
| matches_alt_r r1 r2 s : matches r2 s → matches (Alt r1 r2) s
| matches_star_nil r : matches (Star r) EmptyString
| matches_star_more r s1 s2 :
    matches r s1 → matches (Star r) s2 → matches (Star r) (s1 +:+ s2).

(** The tokens of the pragmas the engine reads itself. *)
Definition engine_pragmas : list string := ["target"; "namespace"; "entry"; "option"].

(** No character of [s] is a line terminator. *)
Fixpoint single_line (s : string) : bool :=
  match s with
  | EmptyString => true
  | String c rest => negb (line_terminator c) && single_line rest
  end.

(** ** The shared context and the worker loop *)

(** [ShaderCompilationContext], the mutable part.  [Shader] and [Options]
    point to data nobody writes; they are parameters below. *)
Record ShaderCompilationContext := {
  Input : list OptionPermutation;      (* queue: front is the head *)
  IsFailed : bool;
  Output : list CompiledShader;
  Messages : gset string;
}.

(** What an observer of one batch records next to the context: the work
    items as they leave the queue, as they reach the backend and as their
    iteration ends; what each [printf] of a worker writes before its newline,
    and the line the worker held at that [printf]. *)
Record Trace := {
  dequeued : list OptionPermutation;
  invoked : list OptionPermutation;
  finished : list OptionPermutation;
  printed : list string;
  handed : list string;
}.

(** Where a worker stands in [CompileWorker], with the locals that are live
    there. *)
Inductive Worker :=
| AtLoopHead
| Compiling (permutation : OptionPermutation)
| ReadingMessages (permutation : OptionPermutation) (success : bool)
    (result : CompiledShader) (messages : string)
| InsertingMessage (permutation : OptionPermutation) (success : bool)
    (result : CompiledShader) (message : string) (messages : string)
| PrintingMessage (permutation : OptionPermutation) (success : bool)
    (result : CompiledShader) (message : string) (messages : string)
| Saving (permutation : OptionPermutation) (success : bool) (result : CompiledShader)
| Returned
| Faulted (permutation : OptionPermutation) (f : fault).

Record Pool := {
  context : ShaderCompilationContext;
  trace : Trace;
  workers : list Worker;
}.

Section Engine.
Context {ShaderOptions : Type}.
Context (d3d : D3DCompiler) (shader : ShaderInfo ShaderOptions)
        (options : ShaderCompilationArguments).

(** One step of one worker.  [None]: the worker has returned, or it has
    followed a pointer it must not follow.  The two steps of
    [Messages.emplace] are what the call does when no call of another worker
    overlaps it; [race_step] below is the call that another one overlaps, and
    [overread_step] is how a worker that has read past the end of a blob goes
    on. *)
Definition worker_step (w : Worker) (c : ShaderCompilationContext) (t : Trace)
  : option (Worker * ShaderCompilationContext * Trace) :=
  match w with
  | AtLoopHead =>
      (* "Get work item", under InputMutex *)
      match Input c with
      | [] => Some (Returned, c, t)
      | permutation :: rest =>
          Some (Compiling permutation,
                {| Input := rest; IsFailed := IsFailed c;
                   Output := Output c; Messages := Messages c |},
                {| dequeued := dequeued t ++ [permutation]; invoked := invoked t;
                   finished := finished t; printed := printed t;
                   handed := handed t |})
      end
  | Compiling permutation =>
      (* "Define result" ... "Post process results", no lock held *)
      let t' := {| dequeued := dequeued t; invoked := invoked t ++ [permutation];
                   finished := finished t; printed := printed t;
                   handed := handed t |} in
      match compile_permutation d3d shader options permutation with
      | inl f => Some (Faulted permutation f, c, t')
      | inr (success, result, messages) =>
          Some (ReadingMessages permutation success result messages, c, t')
      end
  | ReadingMessages permutation success result messages =>
      (* the condition of the [while], then that of the [if] in "Print out
         messages" as far as the lookup [emplace] starts with; no lock held *)
      match messages with
      | EmptyString => Some (Saving permutation success result, c, t)
      | _ =>
          let '(message, remaining) := getline messages in
          if regex_match message warningIgnoreRegex
          then Some (ReadingMessages permutation success result remaining, c, t)
          else if decide (message ∈ Messages c)
          then (* found: [.second] is false *)
               Some (ReadingMessages permutation success result remaining, c, t)
          else Some (InsertingMessage permutation success result message remaining, c, t)
      end
  | InsertingMessage permutation success result message remaining =>
      (* [emplace] inserts what its lookup did not find, and [.second] is
         true; no lock held *)
      Some (PrintingMessage permutation success result message remaining,
            {| Input := Input c; IsFailed := IsFailed c; Output := Output c;
               Messages := {[ message ]} ∪ Messages c |}, t)
  | PrintingMessage permutation success result message remaining =>
      (* [printf("%s\n", message.c_str())] under MessagesMutex *)
      Some (ReadingMessages permutation success result remaining, c,
            {| dequeued := dequeued t; invoked := invoked t;
               finished := finished t; printed := printed t ++ [c_str message];
               handed := handed t ++ [message] |})
  | Saving permutation success result =>
      (* "If successful return binary" *)
      let t' := {| dequeued := dequeued t; invoked := invoked t;
                   finished := finished t ++ [permutation]; printed := printed t;
                   handed := handed t |} in
      if success
      then Some (AtLoopHead,
                 {| Input := Input c; IsFailed := IsFailed c;
                    Output := Output c ++ [result]; Messages := Messages c |}, t')
      else Some (AtLoopHead,
                 {| Input := Input c; IsFailed := true;
                    Output := Output c; Messages := Messages c |}, t')
  | Returned | Faulted _ _ => None
  end.

(** Worker [i] takes one step. *)
Definition pool_step_at (i : nat) (σ : Pool) : option Pool :=
  w ← workers σ !! i;
  '(w', c', t') ← worker_step w (context σ) (trace σ);
  Some {| context := c'; trace := t'; workers := <[i := w']> (workers σ) |}.

(** A step in which the call the worker makes, if it makes one on
    [Messages], has the outcome it has when no other call overlaps it. *)
Definition orderly_step (σ σ' : Pool) : Prop := ∃ i, pool_step_at i σ = Some σ'.

(** The call of [Messages.emplace] a worker is at, about to make it for a
    line the pattern lets through or inside it, with the worker's locals. *)
Definition at_emplace (w : Worker)
  : option (OptionPermutation * bool * CompiledShader * string * string) :=
  match w with
  | ReadingMessages permutation success result messages =>
      match messages with
      | EmptyString => None
      | _ =>
          let '(message, remaining) := getline messages in
          if regex_match message warningIgnoreRegex then None
          else Some (permutation, success, result, message, remaining)
      end
  | InsertingMessage permutation success result message remaining =>
      Some (permutation, success, result, message, remaining)
  | _ => None
  end.

(** Another worker than [i] is at a call of [Messages.emplace] as well. *)
Definition overlapped (i : nat) (σ : Pool) : Prop :=
  ∃ j w, j ≠ i ∧ workers σ !! j = Some w ∧ is_Some (at_emplace w).

(** The call of a worker overlaps that of another one: no mutex is held
    around [emplace], and [unordered_set] promises nothing for calls that
    overlap.  The worker does not come out of the call, or it comes out of it
    with [.second] true or false, and the set is left with any content: lines
    recorded before may be lost.  The damage is taken to stay within the set
    and the call. *)
Definition race_step (σ σ' : Pool) : Prop :=
  ∃ i w permutation success result message remaining (w' : Worker) (M' : gset string),
    workers σ !! i = Some w
    ∧ at_emplace w = Some (permutation, success, result, message, remaining)
    ∧ overlapped i σ
    ∧ (w' = Faulted permutation DataRace
       ∨ w' = PrintingMessage permutation success result message remaining
       ∨ w' = ReadingMessages permutation success result remaining)
    ∧ σ' = {| context := {| Input := Input (context σ); IsFailed := IsFailed (context σ);
                            Output := Output (context σ); Messages := M' |};
              trace := trace σ;
              workers := <[i := w']> (workers σ) |}.

(** The pool after the call of worker [i] has overlapped another one with
    outcome [second] ([None]: the worker does not come out of the call),
    leaving the set with content [M'].  For runs that are written down step
    by step. *)
Definition race_outcome (second : option bool) (i : nat) (M' : gset string) (σ : Pool) : Pool :=
  match workers σ !! i ≫= at_emplace with
  | Some (permutation, success, result, message, remaining) =>
      let w' := match second with
                | None => Faulted permutation DataRace
                | Some true => PrintingMessage permutation success result message remaining
                | Some false => ReadingMessages permutation success result remaining
                end in
      {| context := {| Input := Input (context σ); IsFailed := IsFailed (context σ);
                       Output := Output (context σ); Messages := M' |};
         trace := trace σ;
         workers := <[i := w']> (workers σ) |}
  | None => σ
  end.

(** Worker [j] is at a call of [Messages.emplace] that overlaps that of
    worker [i], as a test. *)
Definition overlapped_by (i j : nat) (σ : Pool) : bool :=
  bool_decide (j ≠ i)
  && bool_decide (is_Some (workers σ !! i ≫= at_emplace))
  && bool_decide (is_Some (workers σ !! j ≫= at_emplace)).

(** A worker reading a file name past the end of its blob comes upon a zero
    byte in the memory behind the blob, and goes on with the name it has
    read.  (When it comes upon none it stays where it is.) *)
Definition overread_step (σ σ' : Pool) : Prop :=
  ∃ i permutation behind success result messages,
    workers σ !! i = Some (Faulted permutation BufferOverread)
    ∧ compile_permutation (with_memory_behind behind d3d) shader options permutation
      = inr (success, result, messages)
    ∧ σ' = {| context := context σ; trace := trace σ;
              workers := <[i := ReadingMessages permutation success result messages]>
                           (workers σ) |}.

(** The pool after worker [i], reading a name past the end of its blob, has
    come upon a zero byte in [behind].  For runs that are written down step
    by step. *)
Definition overread_outcome (behind : list byte) (i : nat) (σ : Pool) : Pool :=
  match workers σ !! i with
  | Some (Faulted permutation BufferOverread) =>
      match compile_permutation (with_memory_behind behind d3d) shader options permutation with
      | inr (success, result, messages) =>
          {| context := context σ; trace := trace σ;
             workers := <[i := ReadingMessages permutation success result messages]>
                          (workers σ) |}
      | inl _ => σ
      end
  | _ => σ
  end.

Definition pool_step (σ σ' : Pool) : Prop :=
  orderly_step σ σ' ∨ race_step σ σ' ∨ overread_step σ σ'.

(** A schedule names the worker to run at each step; a worker that cannot
    step is skipped. *)
Fixpoint run_schedule (schedule : list nat) (σ : Pool) : Pool :=
  match schedule with
  | [] => σ
  | i :: schedule' => run_schedule schedule' (default σ (pool_step_at i σ))
  end.

(** The index of the first worker that is still inside [CompileWorker]. *)
Fixpoint first_running (ws : list Worker) : option nat :=
  match ws with
  | [] => None
  | (Returned | Faulted _ _) :: ws' => S <$> first_running ws'
  | _ :: _ => Some O
  end.

(** Runs the pool, always stepping the first worker that can step. *)
Fixpoint run_pool (fuel : nat) (σ : Pool) : Pool :=
  match fuel with
  | O => σ
  | S fuel' =>
      match first_running (workers σ) with
      | Some i => run_pool fuel' (default σ (pool_step_at i σ))
      | None => σ
      end
  end.

(** *** [CompileShader] *)

(** [min(thread::hardware_concurrency(), permutations.size())] *)
Definition threadCount (hardware_concurrency : nat) (permutations : list OptionPermutation) : nat :=
  Nat.min hardware_concurrency (length permutations).

(** The context as constructed, and one worker per created thread. *)
Definition spawn (hardware_concurrency : nat) (permutations : list OptionPermutation) : Pool :=
  {| context := {| Input := permutations; IsFailed := false; Output := []; Messages := ∅ |};
     trace := {| dequeued := []; invoked := []; finished := []; printed := [];
                 handed := [] |};
     workers := replicate (threadCount hardware_concurrency permutations) AtLoopHead |}.

(** [CreateThread] is taken to give a thread for every handle. *)

Definition every_worker_returned (σ : Pool) : Prop :=
  Forall (λ w, w = Returned) (workers σ).

(** The most handles [WaitForMultipleObjects] takes. *)
Definition MAXIMUM_WAIT_OBJECTS : nat := 64.

(** A worker that has brought the process down, or will not come back. *)
Definition crashed (w : Worker) : bool :=
  match w with
  | Faulted _ NullDereference | Faulted _ DataRace => true
  | _ => false
  end.

(** [WaitForMultipleObjects(DWORD(threads.size()), threads.data(), true,
    INFINITE)] is over.  With at most 64 handles it comes back when every
    worker has returned.  With more it fails at once; its result is not
    looked at, so [CompileShader] goes on while the workers run, as long as
    none of them has brought the process down. *)
Definition joined (σ : Pool) : Prop :=
  if decide (length (workers σ) ≤ MAXIMUM_WAIT_OBJECTS)%nat
  then every_worker_returned σ
  else Forall (λ w, crashed w = false) (workers σ).

(** The [if (context.IsFailed)] at the end. *)
Definition return_value (σ : Pool) : list CompiledShader :=
  if IsFailed (context σ) then [] else Output (context σ).

(** A pool state the batch can be in. *)
Definition reachable (hardware_concurrency : nat) (permutations : list OptionPermutation)
    (σ : Pool) : Prop :=
  rtc pool_step (spawn hardware_concurrency permutations) σ.

(** [CompileShader] returns [output] from a batch that stands at [σ] when
    the wait is over.  [permutations] is what
    [ShaderOption::Permutate(shader.Options)] gave; the progress lines
    [CompileShader] prints itself are left out. *)
Definition CompileShader_returns (hardware_concurrency : nat)
    (permutations : list OptionPermutation) (σ : Pool) (output : list CompiledShader) : Prop :=
  reachable hardware_concurrency permutations σ ∧ joined σ ∧ output = return_value σ.
End Engine.

(** ** The Direct3D compiler's flag values

    The values d3dcompiler.h of the Windows SDK gives the seven constants the
    worker uses; the three entry points stay parameters. *)
Definition windows_sdk
    (compile : string → list D3D_SHADER_MACRO → string → string → Z → CompileResult)
    (get_blob_part : Blob → D3D_BLOB_PART → option Blob)
    (strip_shader : Blob → option Blob) : D3DCompiler :=
  {| D3DCOMPILE_DEBUG := Z.shiftl 1 0;
     D3DCOMPILE_DEBUG_NAME_FOR_BINARY := Z.shiftl 1 23;
     D3DCOMPILE_SKIP_OPTIMIZATION := Z.shiftl 1 2;
     D3DCOMPILE_OPTIMIZATION_LEVEL0 := Z.shiftl 1 14;
     D3DCOMPILE_OPTIMIZATION_LEVEL1 := 0;
     D3DCOMPILE_OPTIMIZATION_LEVEL2 := Z.lor (Z.shiftl 1 14) (Z.shiftl 1 15);
     D3DCOMPILE_OPTIMIZATION_LEVEL3 := Z.shiftl 1 15;
     D3DCompileFromFile := compile;
     D3DGetBlobPart := get_blob_part;
     D3DStripShader := strip_shader |}.

(** The optimization levels as the design documents them: the flag a level
    selects, or none.  Compared below with [optimization_switch]. *)
Definition documented_optimization_flag (d3d : D3DCompiler) (level : Z) : option Z :=
  match level with
  | -1 => Some (D3DCOMPILE_SKIP_OPTIMIZATION d3d)
  | 0 => Some (D3DCOMPILE_OPTIMIZATION_LEVEL0 d3d)
  | 1 => Some (D3DCOMPILE_OPTIMIZATION_LEVEL1 d3d)
  | 2 => Some (D3DCOMPILE_OPTIMIZATION_LEVEL2 d3d)
  | 3 => Some (D3DCOMPILE_OPTIMIZATION_LEVEL3 d3d)
  | _ => None
  end.

(** The result as it stands when the diagnostics are about to be read: the
    first half of [compile_permutation]. *)
Definition post_processed {O} (d3d : D3DCompiler) (shader : ShaderInfo O)
    (options : ShaderCompilationArguments) (permutation : OptionPermutation)
  : checked CompiledShader :=
  let result := {| ShaderKey := Key permutation; Data := []; PdbName := ""; PdbData := [] |} in
  let compiled := invoke_backend d3d shader options permutation in
  if hr_succeeded compiled then post_process d3d options (binary_blob compiled) result
  else inr result.

(** ** A stand-in backend for concrete runs

    [D3DCompileFromFile] fails exactly when the macro BROKEN is defined as 1.
    Every run reports an unknown-pragma warning and a truncation warning; a
    failing run reports an error, and returns no binary.  With the macro QUIET
    defined as 1 a successful run returns no diagnostics blob at all. *)
Definition line (s : string) : string := s +:+ String newline "".

Definition sample_compile (path : string) (macros : list D3D_SHADER_MACRO)
    (entry target : string) (flags : Z) : CompileResult :=
  let broken := bool_decide ((Some "BROKEN", Some "1") ∈ macros) in
  let quiet := bool_decide ((Some "QUIET", Some "1") ∈ macros) in
  {| hr_succeeded := negb broken;
     binary_blob := if broken then None else Some [x44; x58; x42; x43; x01];
     errors_blob :=
       if quiet && negb broken then None
       else Some (list_byte_of_string
         (line "s.hlsl(1,9): warning X3568: 'target' : unknown pragma ignored" +:+
          line "s.hlsl(7,1): warning X3206: implicit truncation of vector type" +:+
          (if broken then line "s.hlsl(9,1): error X3000: syntax error" else ""))) |}.

(** The debug name blob: flags 0, name length 4, then the name s.pdb, its
    terminator and padding. *)
Definition sample_debug_name : Blob :=
  [x00; x00; x04; x00; x73; x2e; x70; x64; x62; x00; x00; x00].

Definition sample_blob_part (binary : Blob) (part : D3D_BLOB_PART) : option Blob :=
  match part with
  | D3D_BLOB_PDB => Some [x4d; x53; x46]
  | D3D_BLOB_DEBUG_NAME => Some sample_debug_name
  end.

(** Stripping keeps the four-byte tag. *)
Definition sample_strip (binary : Blob) : option Blob := Some (take 4 binary).

Definition sample_d3d : D3DCompiler :=
  windows_sdk sample_compile sample_blob_part sample_strip.

(** The same compiler producing binaries without debug parts. *)
Definition sample_d3d_without_parts : D3DCompiler :=
  windows_sdk sample_compile (λ _ _, None) sample_strip.

(** The same compiler with a debug name that fills its blob to the last
    byte: flags 0, name length 4, then the four characters s.pd and no
    terminator. *)
Definition sample_d3d_unterminated_name : D3DCompiler :=
  windows_sdk sample_compile
    (λ binary part,
       match part with
       | D3D_BLOB_PDB => Some [x4d; x53; x46]
       | D3D_BLOB_DEBUG_NAME => Some [x00; x00; x04; x00; x73; x2e; x70; x64]
       end)
    sample_strip.

(** A compiler that does not find the source file: the call fails and
    leaves both blobs null. *)
Definition missing_file_compile (path : string) (macros : list D3D_SHADER_MACRO)
    (entry target : string) (flags : Z) : CompileResult :=
  {| hr_succeeded := false; binary_blob := None; errors_blob := None |}.

Definition sample_d3d_missing_file : D3DCompiler :=
  windows_sdk missing_file_compile sample_blob_part sample_strip.

(** A compiler whose diagnostics are two lines that differ behind a zero
    character only. *)
Definition nul_compile (path : string) (macros : list D3D_SHADER_MACRO)
    (entry target : string) (flags : Z) : CompileResult :=
  {| hr_succeeded := true;
     binary_blob := Some [x44; x58; x42; x43; x01];
     errors_blob := Some [x61; x00; x62; x0a; x61; x00; x63; x0a] |}.

Definition sample_d3d_with_nul : D3DCompiler :=
  windows_sdk nul_compile sample_blob_part sample_strip.

Definition sample_shader : ShaderInfo unit :=
  {| Path := "s.hlsl"; EntryPoint := "main"; Target := "cs_5_0"; Options := () |}.

Definition release_options : ShaderCompilationArguments :=
  {| IsDebug := false; UseExternalDebugSymbols := false; OptimizationLevel := 3 |}.

Definition debug_options : ShaderCompilationArguments :=
  {| IsDebug := true; UseExternalDebugSymbols := true; OptimizationLevel := -1 |}.

Definition sample_permutation (key mode : string) : OptionPermutation :=
  {| Key := key; Defines := [("MODE", mode)] |}.

Definition broken_permutation (key : string) : OptionPermutation :=
  {| Key := key; Defines := [("BROKEN", "1")] |}.

Definition quiet_permutation (key : string) : OptionPermutation :=
  {| Key := key; Defines := [("QUIET", "1")] |}.

(** Three permutations, the second of which the backend fails on. *)
Definition sample_batch : list OptionPermutation :=
  [sample_permutation "0" "0"; broken_permutation "1"; sample_permutation "2" "1"].

(** Sixty-five permutations: the backend compiles the first and fails on the
    others. *)
Definition crowded_batch : list OptionPermutation :=
  sample_permutation "0" "0"
  :: ((λ n, broken_permutation (String (ascii_of_nat (48 + n)) "")) <$> seq 1 64).

(** Sixty-five permutations the backend compiles. *)
Definition wide_batch : list OptionPermutation :=
  (λ n, sample_permutation (String (ascii_of_nat (48 + n)) "") "0") <$> seq 0 65.

(** Three permutations the backend compiles. *)
Definition clean_batch : list OptionPermutation :=
  [sample_permutation "0" "0"; sample_permutation "1" "1"; sample_permutation "2" "2"].

(** Two workers: the first takes an item and is held up, the second works
    the queue off, then the first goes on. *)
Definition second_worker_first : list nat :=
  [0%nat] ++ replicate 30 1%nat ++ replicate 15 0%nat.

(** Two workers: each one takes an item, compiles it and reads its
    diagnostics as far as the lookup for the second line (four steps); then
    the first runs to its end, and then the second. *)
Definition both_look_up_first : list nat :=
  replicate 4 0%nat ++ replicate 4 1%nat ++ replicate 30 0%nat ++ replicate 30 1%nat.

(** ** Bookkeeping for the batch *)

(** The work item a worker holds between the queue and the backend. *)
Definition taken (w : Worker) : list OptionPermutation :=
  match w with Compiling permutation => [permutation] | _ => [] end.

(** The work item of an iteration the backend has been called for and that
    has not reached its end. *)
Definition in_progress (w : Worker) : list OptionPermutation :=
  match w with
  | ReadingMessages permutation _ _ _ | InsertingMessage permutation _ _ _ _
  | PrintingMessage permutation _ _ _ _ | Saving permutation _ _
  | Faulted permutation _ => [permutation]
  | _ => []
  end.

(** The line a worker has looked up in [Messages] without finding it, and
    not inserted yet. *)
Definition about_to_insert (w : Worker) : list string :=
  match w with InsertingMessage _ _ _ message _ => [message] | _ => [] end.

(** The line a worker has inserted into [Messages] and not printed yet. *)
Definition about_to_print (w : Worker) : list string :=
  match w with PrintingMessage _ _ _ message _ => [message] | _ => [] end.

Definition has_left (w : Worker) : bool :=
  match w with Returned | Faulted _ _ => true | _ => false end.

Definition is_returned (w : Worker) : bool :=
  match w with Returned => true | _ => false end.

(** [every_worker_returned], as a test. *)
Definition all_returned (σ : Pool) : bool := forallb is_returned (workers σ).

(** A line the ignore pattern lets through. *)
Definition reported (message : string) : Prop :=
  regex_match message warningIgnoreRegex = false.

(** How often [message] has been printed. *)
Definition times_printed (message : string) (σ : Pool) : nat :=
  length (filter (message =.) (printed (trace σ))).

Section Batch.
Context {ShaderOptions : Type}.
Context (d3d : D3DCompiler) (shader : ShaderInfo ShaderOptions)
        (options : ShaderCompilationArguments).

(** What an iteration for [permutation] appends to [Output]. *)
Definition saved_result (permutation : OptionPermutation) : option CompiledShader :=
  match compile_permutation d3d shader options permutation with
  | inr (true, result, _) => Some result
  | _ => None
  end.

(** The lines of the diagnostics the backend returns for [permutation]. *)
Definition permutation_lines (permutation : OptionPermutation) : list string :=
  match errors_blob (invoke_backend d3d shader options permutation) with
  | Some errors => diagnostic_lines (string_of_list_byte errors)
  | None => []
  end.

(** No worker faults on [permutation]. *)
Definition fault_free (permutation : OptionPermutation) : Prop :=
  ∀ f, compile_permutation d3d shader options permutation ≠ inl f.

(** An upper bound on the steps a worker in state [w] takes before it is
    back at the loop head, plus one. *)
Definition worker_budget (w : Worker) : nat :=
  match w with
  | AtLoopHead => 1
  | Compiling permutation =>
      match compile_permutation d3d shader options permutation with
      | inr (_, _, messages) => 3 * String.length messages + 4
      | inl _ => 1
      end
  | ReadingMessages _ _ _ messages => 3 * String.length messages + 3
  | InsertingMessage _ _ _ _ messages => 3 * String.length messages + 5
  | PrintingMessage _ _ _ _ messages => 3 * String.length messages + 4
  | Saving _ _ _ => 2
  | Returned | Faulted _ _ => 0
  end.

(** An upper bound on the steps the whole pool can still take. *)
Definition pool_budget (σ : Pool) : nat :=
  sum_list_with worker_budget (workers σ)
  + sum_list_with (λ permutation, S (worker_budget (Compiling permutation)))
      (Input (context σ)).

(** What an iteration for [permutation] stands with when it comes to the
    diagnostics: the verdict of the backend, the result and the text, with
    something standing behind the debug name blob in case the name is read
    past it. *)
Definition computes (permutation : OptionPermutation) (success : bool)
    (result : CompiledShader) (text : string) : Prop :=
  ∃ behind,
    compile_permutation (with_memory_behind behind d3d) shader options permutation
    = inr (success, result, text).

(** The backend compiles [permutation]. *)
Definition succeeds (permutation : OptionPermutation) : Prop :=
  hr_succeeded (invoke_backend d3d shader options permutation) = true.

#[global] Instance succeeds_dec permutation : Decision (succeeds permutation).
Proof. unfold succeeds. apply _. Defined.

(** What holds for a worker under every interleaving: its locals come from
    its own work item, and the lines it has in hand are lines of the
    diagnostics of that item. *)
Definition worker_invariant (w : Worker) : Prop :=
  match w with
  | ReadingMessages permutation success result messages =>
      ∃ text, computes permutation success result text
              ∧ diagnostic_lines messages ⊆ diagnostic_lines text
  | InsertingMessage permutation success result message messages
  | PrintingMessage permutation success result message messages =>
      ∃ text, computes permutation success result text
              ∧ reported message
              ∧ message ∈ diagnostic_lines text
              ∧ diagnostic_lines messages ⊆ diagnostic_lines text
  | Saving permutation success result =>
      ∃ text, computes permutation success result text
  | Faulted permutation f =>
      f = DataRace ∨ compile_permutation d3d shader options permutation = inl f
  | _ => True
  end.

(** The invariant of a batch over [permutations], under every
    interleaving. *)
Record batch_invariant (permutations : list OptionPermutation) (σ : Pool) : Prop := {
  inv_queue : dequeued (trace σ) ++ Input (context σ) = permutations;
  inv_taken : dequeued (trace σ) ≡ₚ invoked (trace σ) ++ (workers σ ≫= taken);
  inv_invoked : invoked (trace σ) ≡ₚ finished (trace σ) ++ (workers σ ≫= in_progress);
  inv_returned : Returned ∈ workers σ → Input (context σ) = [];
  inv_output : Forall2 (λ permutation result, ∃ text, computes permutation true result text)
                 (filter succeeds (finished (trace σ))) (Output (context σ));
  inv_failed : IsFailed (context σ)
               = existsb (λ permutation,
                   negb (hr_succeeded (invoke_backend d3d shader options permutation)))
                   (finished (trace σ));
  inv_workers : Forall worker_invariant (workers σ);
  inv_finished : Forall (λ permutation, ∃ success result text,
                           computes permutation success result text)
                   (finished (trace σ));
  inv_printed : printed (trace σ) = c_str <$> handed (trace σ);
  inv_handed : ∀ m, m ∈ handed (trace σ) →
                    reported m
                    ∧ ∃ permutation, permutation ∈ invoked (trace σ)
                                     ∧ m ∈ permutation_lines permutation;
}.

(** What holds for a worker, given the lines [M] recorded so far, as long
    as no call on [Messages] has overlapped another: of the lines its
    diagnostics hold and the pattern lets through, each is recorded, or is the
    one being inserted, or is still to be read. *)
Definition lines_recorded (M : gset string) (w : Worker) : Prop :=
  match w with
  | ReadingMessages permutation _ _ messages
  | PrintingMessage permutation _ _ _ messages =>
      ∀ l, l ∈ permutation_lines permutation → reported l →
           l ∈ M ∨ l ∈ diagnostic_lines messages
  | InsertingMessage permutation _ _ message messages =>
      ∀ l, l ∈ permutation_lines permutation → reported l →
           (l ∈ M ∨ l = message) ∨ l ∈ diagnostic_lines messages
  | Saving permutation _ _ =>
      ∀ l, l ∈ permutation_lines permutation → reported l → l ∈ M
  | _ => True
  end.

(** The invariant of the lines, as long as no call on [Messages] has
    overlapped another. *)
Record log_invariant (σ : Pool) : Prop := {
  log_workers : Forall (lines_recorded (Messages (context σ))) (workers σ);
  log_finished : ∀ permutation l,
      permutation ∈ finished (trace σ) → l ∈ permutation_lines permutation → reported l →
      l ∈ Messages (context σ);
  log_messages : ∀ m, m ∈ Messages (context σ)
                      ↔ m ∈ handed (trace σ) ++ (workers σ ≫= about_to_print);
}.

(** What holds besides in a pool of one worker: no line is handed to
    [printf] twice, and the line about to be inserted is not recorded yet. *)
Definition single_worker_invariant (σ : Pool) : Prop :=
  ∀ w, workers σ = [w] →
       NoDup (handed (trace σ) ++ about_to_print w)
       ∧ ∀ permutation success result message messages,
           w = InsertingMessage permutation success result message messages →
           message ∉ Messages (context σ).

(** In a pool of one worker the work items pass through the stages in the
    order of the queue. *)
Definition in_queue_order (σ : Pool) : Prop :=
  ∀ w, workers σ = [w] →
       dequeued (trace σ) = invoked (trace σ) ++ taken w
       ∧ invoked (trace σ) = finished (trace σ) ++ in_progress w.

(** The lines of the diagnostics of all permutations that the pattern lets
    through, each one once. *)
Definition reported_lines (permutations : list OptionPermutation) : list string :=
  remove_dups (filter (λ l, regex_match l warningIgnoreRegex = false)
                 (permutations ≫= permutation_lines)).

(** The call of the backend the worker makes for [permutation], written
    out. *)
Definition backend_call (permutation : OptionPermutation) : CompileResult :=
  D3DCompileFromFile d3d (Path shader) (define_macros permutation) (EntryPoint shader)
    (Target shader) (compilation_flags d3d options).
End Batch.

(** ** Diagnostics as text *)

(** The text a list of lines stands for: every line followed by the
    delimiter of [getline]. *)
Fixpoint unlines (lines : list string) : string :=
  match lines with
  | [] => EmptyString
  | message :: rest => message +:+ String newline (unlines rest)
  end.

Fixpoint last_character (text : string) : option ascii :=
  match text with
  | EmptyString => None
  | String c EmptyString => Some c
  | String _ rest => last_character rest
  end.

(** A text whose last line lacks its delimiter. *)
Definition unterminated (text : string) : bool :=
  match last_character text with
  | Some c => negb (Ascii.eqb c newline)
  | None => false
  end.

(** The delimiter does not occur in [message]. *)
Fixpoint delimiter_free (message : string) : bool :=
  match message with
  | EmptyString => true
  | String c rest => negb (Ascii.eqb c newline) && delimiter_free rest
  end.

(** ** The command line tool

    [ShaderGenerator/main.cpp].  The functions [main] calls are declared in
    headers that are not part of the sources at hand; they are taken as an
    environment.  A call returns or throws, and [main] is followed through the
    calls it makes and the text it prints. *)
Module Main.

Inductive exception :=
| std_exception (what : string)   (* caught by [catch (const std::exception&)] *)
| other_exception.                (* caught by [catch (...)] *)

(** [ShaderCompilationArguments] as [main] reads it. *)
Record ShaderCompilationArguments := {
  Input : string;
  Header : string;
  Output : string;
  IsDebug : bool;
}.

Section Program.
Context {ShaderInfo CompilationOptions CompiledShader : Type}.

(** What [main] does that can be seen from outside. *)
Inductive event :=
| printf (text : string)
| call_init_apartment
| call_Parse (argc : Z) (argv : list string)
| call_FromFile (path : string)
| call_WriteHeader (path : string) (shader : ShaderInfo)
| call_CompileShader (shader : ShaderInfo) (options : CompilationOptions)
| call_WriteShaderOutput (path : string) (output : list CompiledShader).

Record Environment := {
  init_apartment : exception + ();
  Parse : Z → list string → exception + ShaderCompilationArguments;
  FromFile : string → exception + ShaderInfo;
  WriteHeader : string → ShaderInfo → exception + ();
  (* [CompilationOptions options{}] and the assignment to [options.IsDebug] *)
  value_initialized : CompilationOptions;
  set_IsDebug : CompilationOptions → bool → CompilationOptions;
  CompileShader : ShaderInfo → CompilationOptions → exception + list CompiledShader;
  WriteShaderOutput : string → list CompiledShader → exception + ();
}.

(** A stretch of [main]: given the events so far, it returns or throws, and
    leaves the events extended. *)
Definition program (A : Type) : Type := list event → (exception + A) * list event.

Definition ret {A} (a : A) : program A := λ log, (inr a, log).

Definition bind {A B} (m : program A) (k : A → program B) : program B :=
  λ log, match m log with
         | (inr a, log') => k a log'
         | (inl e, log') => (inl e, log')
         end.

(** A call of the environment: the call is made, then it returns or
    throws. *)
Definition call {A} (e : event) (outcome : exception + A) : program A :=
  λ log, (outcome, log ++ [e]).

Definition print (text : string) : program () := λ log, (inr (), log ++ [printf text]).

Definition try_catch {A} (body : program A) (handler : exception → program A) : program A :=
  λ log, match body log with
         | (inr a, log') => (inr a, log')
         | (inl e, log') => handler e log'
         end.

Definition when (condition : bool) (body : program ()) : program () :=
  if condition then body else ret ().

Definition empty (s : string) : bool := bool_decide (s = EmptyString).
End Program.

#[global] Instance program_bind {S O C : Type} : MBind (@program S O C) :=
  λ A B k m, bind m k.

Section Main.
Context {ShaderInfo CompilationOptions CompiledShader : Type}.
Context (env : @Environment ShaderInfo CompilationOptions CompiledShader).

Abbreviation program := (@program ShaderInfo CompilationOptions CompiledShader).

Definition usage : list string :=
  [ "Shader Generator" +:+ String newline "";
    "©Péter Major 2020" +:+ String newline "";
    String newline "";
    "Usage:" +:+ String newline "";
    "  -i=<file_path>: Path of the source code" +:+ String newline "";
    "  -o=<dir_path>: Path of the output directory" +:+ String newline "";
    "  -h=<dir_path>: Path of the include header" +:+ String newline "";
    "  -d: Debug mode with debug symbols" +:+ String newline "";
    String newline "";
    "Source file usage:" +:+ String newline "";
    "  #pragma target cs_5_0 //Compilation target" +:+ String newline "";
    "  #pragma entry main //Entry point - optional, default is 'main'" +:+ String newline "";
    "  #pragma namespace MyApp::Shaders //Namespace for include header" +:+ String newline "";
    "  #pragma option bool IsSomethingEnabled //A boolean option" +:+ String newline "";
    "  #pragma option enum RenderMode {X, Y, Z} //An enum option" +:+ String newline "";
    "  #pragma option int SampleCount {1..4} //An integer option" +:+ String newline "" ].

Fixpoint print_all (texts : list string) : program () :=
  match texts with
  | [] => ret ()
  | text :: rest => _ ← print text; print_all rest
  end.

(** The [try] block. *)
Definition try_block (argc : Z) (argv : list string) : program Z :=
  _ ← call call_init_apartment (init_apartment env);
  arguments ← call (call_Parse argc argv) (Parse env argc argv);
  shader ← call (call_FromFile (Input arguments)) (FromFile env (Input arguments));
  _ ← when (negb (empty (Header arguments)))
        (call (call_WriteHeader (Header arguments) shader)
              (WriteHeader env (Header arguments) shader));
  _ ← when (negb (empty (Output arguments)))
        (let options := set_IsDebug env (value_initialized env) (IsDebug arguments) in
         output ← call (call_CompileShader shader options) (CompileShader env shader options);
         when (negb (bool_decide (output = [])))
           (call (call_WriteShaderOutput (Output arguments) output)
                 (WriteShaderOutput env (Output arguments) output)));
  ret 0.

(** The two [catch] clauses. *)
Definition handler (e : exception) : program Z :=
  match e with
  | std_exception what =>
      _ ← print ("Shader group compilation failed: " +:+ what +:+ String newline "");
      ret (-1)
  | other_exception =>
      _ ← print ("Shader group compilation failed: unknown error." +:+ String newline "");
      ret (-1)
  end.

Definition main (argc : Z) (argv : list string) : program Z :=
  if argc =? 0
  then _ ← print_all usage; ret 0
  else try_catch (try_block argc argv) handler.
End Main.
End Main.

(** * Properties *)

(** ** Flags *)

Lemma optimization_switch_documented d3d flags level :
  optimization_switch d3d flags level
  = from_option (Z.lor flags) flags (documented_optimization_flag d3d level).
Proof.
  unfold optimization_switch.
  destruct (Z.eqb_spec level (-1)) as [->|?]; [reflexivity|].
  destruct (Z.eqb_spec level 0) as [->|?]; [reflexivity|].
  destruct (Z.eqb_spec level 1) as [->|?]; [reflexivity|].
  destruct (Z.eqb_spec level 2) as [->|?]; [reflexivity|].
  destruct (Z.eqb_spec level 3) as [->|?]; [reflexivity|].
  unfold documented_optimization_flag.
  repeat case_match; try reflexivity; lia.
Qed.

(** C6. The flags the worker passes are the debug flags, joined with the flag
    of the optimization level when the level is one of -1, 0, 1, 2, 3 and
    left as they are for every other level; a level selects a flag exactly
    when it lies in that range, and with the values of the Windows SDK the
    five flags are pairwise different. *)
Theorem optimization_level_flags :
  (∀ d3d options,
     compilation_flags d3d options
     = from_option (Z.lor (debug_flags d3d options)) (debug_flags d3d options)
         (documented_optimization_flag d3d (OptimizationLevel options)))
  ∧ (∀ d3d,
       documented_optimization_flag d3d <$> [-1; 0; 1; 2; 3]
       = Some <$> [D3DCOMPILE_SKIP_OPTIMIZATION d3d; D3DCOMPILE_OPTIMIZATION_LEVEL0 d3d;
                   D3DCOMPILE_OPTIMIZATION_LEVEL1 d3d; D3DCOMPILE_OPTIMIZATION_LEVEL2 d3d;
                   D3DCOMPILE_OPTIMIZATION_LEVEL3 d3d])
  ∧ (∀ d3d level,
       documented_optimization_flag d3d level = None ↔ level < -1 ∨ 3 < level)
  ∧ (∀ compile part strip,
       let d3d := windows_sdk compile part strip in
       NoDup [D3DCOMPILE_SKIP_OPTIMIZATION d3d; D3DCOMPILE_OPTIMIZATION_LEVEL0 d3d;
              D3DCOMPILE_OPTIMIZATION_LEVEL1 d3d; D3DCOMPILE_OPTIMIZATION_LEVEL2 d3d;
              D3DCOMPILE_OPTIMIZATION_LEVEL3 d3d]).
Proof.
  split_and!.
  - intros. apply optimization_switch_documented.
  - reflexivity.
  - intros d3d level. unfold documented_optimization_flag.
    split.
    + intros H. repeat case_match; try discriminate; lia.
    + intros H. repeat case_match; try reflexivity; lia.
  - intros. subst d3d. simpl.
    apply (bool_decide_unpack _). vm_compute. exact I.
Qed.

(** ** Worker-local postprocessing *)

Lemma c_string_terminated name rest :
  x00 ∉ name → c_string (name ++ x00 :: rest) = Some (string_of_list_byte name).
Proof.
  induction name as [|b name IH]; intros Hname; cbn [c_string app].
  - by destruct (decide (x00 = x00)).
  - destruct (decide (b = x00)) as [->|_]; [set_solver|].
    rewrite IH by set_solver. reflexivity.
Qed.

Lemma c_string_unterminated bytes : x00 ∉ bytes → c_string bytes = None.
Proof.
  induction bytes as [|b bytes IH]; intros Hb; cbn [c_string]; [done|].
  destruct (decide (b = x00)) as [->|_]; [set_solver|].
  by rewrite IH by set_solver.
Qed.

Lemma compile_permutation_unfold {O} d3d (shader : ShaderInfo O) options permutation :
  compile_permutation d3d shader options permutation
  = (result ← post_processed d3d shader options permutation;
     errors ← deref (errors_blob (invoke_backend d3d shader options permutation));
     inr (hr_succeeded (invoke_backend d3d shader options permutation), result,
          string_of_list_byte errors)).
Proof. reflexivity. Qed.

(** What the worker hands to the diagnostics loop reports the backend's own
    verdict and carries the permutation's key. *)
Lemma compile_permutation_inr {O} d3d (shader : ShaderInfo O) options permutation
    success result messages :
  compile_permutation d3d shader options permutation = inr (success, result, messages) →
  success = hr_succeeded (invoke_backend d3d shader options permutation)
  ∧ ShaderKey result = Key permutation
  ∧ ∃ errors, errors_blob (invoke_backend d3d shader options permutation) = Some errors
              ∧ messages = string_of_list_byte errors.
Proof.
  unfold compile_permutation, post_process, get_debug_information, deref.
  intros H.
  repeat (simplify_eq/=; try case_match; simplify_eq/=); eauto.
Qed.

(** C9. When both debug blobs are there and the name blob holds four header
    bytes, then a name free of zero bytes, then a zero byte, the file name the
    worker records is that name: whatever the two flag bytes and the two
    length bytes hold, and whatever follows the terminator. *)
Theorem debug_name_read_after_header d3d bin pdb f1 f2 l1 l2 name rest result :
  D3DGetBlobPart d3d bin D3D_BLOB_PDB = Some pdb →
  D3DGetBlobPart d3d bin D3D_BLOB_DEBUG_NAME = Some (f1 :: f2 :: l1 :: l2 :: name ++ x00 :: rest) →
  x00 ∉ name →
  debug_file_name (f1 :: f2 :: l1 :: l2 :: name ++ x00 :: rest) = Some (string_of_list_byte name)
  ∧ get_debug_information d3d (Some bin) result
    = inr ({| ShaderKey := ShaderKey result; Data := Data result;
              PdbName := string_of_list_byte name; PdbData := pdb |},
           D3DStripShader d3d bin).
Proof.
  intros Hpdb Hname Hzero.
  assert (debug_file_name (f1 :: f2 :: l1 :: l2 :: name ++ x00 :: rest)
          = Some (string_of_list_byte name)) as Hfile.
  { unfold debug_file_name. simpl. by apply c_string_terminated. }
  split; [exact Hfile|].
  unfold get_debug_information. simpl. rewrite Hpdb, Hname, Hfile. reflexivity.
Qed.

(** The name s.pdb is read in full from a blob whose length field says 4. *)
Lemma debug_name_read_after_header_witness :
  debug_file_name sample_debug_name = Some "s.pdb"
  ∧ get_debug_information sample_d3d (Some [x44; x58; x42; x43; x01])
      {| ShaderKey := "0"; Data := []; PdbName := ""; PdbData := [] |}
    = inr ({| ShaderKey := "0"; Data := []; PdbName := "s.pdb"; PdbData := [x4d; x53; x46] |},
           Some [x44; x58; x42; x43]).
Proof.
  apply (debug_name_read_after_header sample_d3d [x44; x58; x42; x43; x01] [x4d; x53; x46]
           x00 x00 x04 x00 [x73; x2e; x70; x64; x62] [x00; x00]
           {| ShaderKey := "0"; Data := []; PdbName := ""; PdbData := [] |}).
  - reflexivity.
  - reflexivity.
  - apply (bool_decide_unpack _). vm_compute. exact I.
Defined.

(** C5. A successful compile whose diagnostics blob is there.  With both
    switches on, both blobs found, a terminated name and a stripped binary
    returned, the result holds the stripped bytes, the file name and the
    symbol bytes.  With [UseExternalDebugSymbols] off it holds the binary as
    compiled and no symbol data. *)
Theorem debug_symbol_postprocessing {O} d3d (shader : ShaderInfo O) options permutation
    bin errors :
  hr_succeeded (invoke_backend d3d shader options permutation) = true →
  binary_blob (invoke_backend d3d shader options permutation) = Some bin →
  errors_blob (invoke_backend d3d shader options permutation) = Some errors →
  (∀ pdb nameBlob fileName stripped,
     IsDebug options = true → UseExternalDebugSymbols options = true →
     D3DGetBlobPart d3d bin D3D_BLOB_PDB = Some pdb →
     D3DGetBlobPart d3d bin D3D_BLOB_DEBUG_NAME = Some nameBlob →
     debug_file_name nameBlob = Some fileName →
     D3DStripShader d3d bin = Some stripped →
     compile_permutation d3d shader options permutation
     = inr (true, {| ShaderKey := Key permutation; Data := stripped;
                     PdbName := fileName; PdbData := pdb |},
            string_of_list_byte errors))
  ∧ (UseExternalDebugSymbols options = false →
     compile_permutation d3d shader options permutation
     = inr (true, {| ShaderKey := Key permutation; Data := bin;
                     PdbName := ""; PdbData := [] |},
            string_of_list_byte errors)).
Proof.
  intros Hok Hbin Herr. split.
  - intros pdb nameBlob fileName stripped Hdbg Hext Hpdb Hname Hfile Hstrip.
    unfold compile_permutation, post_process, get_debug_information.
    rewrite Hok, Hbin, Herr, Hdbg, Hext. simpl.
    rewrite Hpdb, Hname, Hfile, Hstrip. reflexivity.
  - intros Hext.
    unfold compile_permutation, post_process.
    rewrite Hok, Hbin, Herr, Hext, andb_false_r. reflexivity.
Qed.

Lemma debug_symbol_postprocessing_witness :
  compile_permutation sample_d3d sample_shader debug_options (sample_permutation "0" "1")
  = inr (true, {| ShaderKey := "0"; Data := [x44; x58; x42; x43];
                  PdbName := "s.pdb"; PdbData := [x4d; x53; x46] |},
         string_of_list_byte
           (default [] (errors_blob (invoke_backend sample_d3d sample_shader debug_options
                                       (sample_permutation "0" "1")))))
  ∧ compile_permutation sample_d3d sample_shader release_options (sample_permutation "0" "1")
    = inr (true, {| ShaderKey := "0"; Data := [x44; x58; x42; x43; x01];
                    PdbName := ""; PdbData := [] |},
           string_of_list_byte
             (default [] (errors_blob (invoke_backend sample_d3d sample_shader release_options
                                         (sample_permutation "0" "1"))))).
Proof.
  split.
  - exact (proj1 (debug_symbol_postprocessing sample_d3d sample_shader debug_options
                    (sample_permutation "0" "1") [x44; x58; x42; x43; x01] _
                    eq_refl eq_refl eq_refl)
             [x4d; x53; x46] sample_debug_name "s.pdb" [x44; x58; x42; x43]
             eq_refl eq_refl eq_refl eq_refl eq_refl eq_refl).
  - exact (proj2 (debug_symbol_postprocessing sample_d3d sample_shader release_options
                    (sample_permutation "0" "1") [x44; x58; x42; x43; x01] _
                    eq_refl eq_refl eq_refl) eq_refl).
Defined.

(** C3, as the code has it.  A successful compile with both switches on
    whose binary lacks the symbol blob or the name blob: the result carries no
    symbol data and counts as a success, and its bytes are what
    [D3DStripShader] returned for the binary. *)
Theorem missing_blobs_are_no_failure {O} d3d (shader : ShaderInfo O) options permutation
    bin errors stripped :
  hr_succeeded (invoke_backend d3d shader options permutation) = true →
  binary_blob (invoke_backend d3d shader options permutation) = Some bin →
  errors_blob (invoke_backend d3d shader options permutation) = Some errors →
  IsDebug options = true → UseExternalDebugSymbols options = true →
  D3DGetBlobPart d3d bin D3D_BLOB_PDB = None ∨ D3DGetBlobPart d3d bin D3D_BLOB_DEBUG_NAME = None →
  D3DStripShader d3d bin = Some stripped →
  compile_permutation d3d shader options permutation
  = inr (true, {| ShaderKey := Key permutation; Data := stripped;
                  PdbName := ""; PdbData := [] |},
         string_of_list_byte errors).
Proof.
  intros Hok Hbin Herr Hdbg Hext Hmissing Hstrip.
  unfold compile_permutation, post_process, get_debug_information.
  rewrite Hok, Hbin, Herr, Hdbg, Hext. simpl.
  destruct Hmissing as [-> | ->];
    [| destruct (D3DGetBlobPart d3d bin D3D_BLOB_PDB)]; simpl; rewrite Hstrip; reflexivity.
Qed.

Lemma missing_blobs_are_no_failure_witness :
  compile_permutation sample_d3d_without_parts sample_shader debug_options
    (sample_permutation "0" "1")
  = inr (true, {| ShaderKey := "0"; Data := [x44; x58; x42; x43]; PdbName := ""; PdbData := [] |},
         string_of_list_byte
           (default [] (errors_blob (invoke_backend sample_d3d_without_parts sample_shader
                                       debug_options (sample_permutation "0" "1"))))).
Proof.
  apply (missing_blobs_are_no_failure sample_d3d_without_parts sample_shader debug_options
           (sample_permutation "0" "1") [x44; x58; x42; x43; x01] _ [x44; x58; x42; x43]
           eq_refl eq_refl eq_refl eq_refl eq_refl (or_introl eq_refl) eq_refl).
Defined.

(** C3, as stated, fails: with no blob to be found the five bytes the backend
    compiled are not the bytes of the result, which are the four bytes left
    by stripping. *)
Lemma missing_blobs_binary_is_stripped :
  let d3d := sample_d3d_without_parts in
  let permutation := sample_permutation "0" "1" in
  let compiled := invoke_backend d3d sample_shader debug_options permutation in
  IsDebug debug_options && UseExternalDebugSymbols debug_options = true
  ∧ hr_succeeded compiled = true
  ∧ binary_blob compiled = Some [x44; x58; x42; x43; x01]
  ∧ D3DGetBlobPart d3d [x44; x58; x42; x43; x01] D3D_BLOB_PDB = None
  ∧ D3DGetBlobPart d3d [x44; x58; x42; x43; x01] D3D_BLOB_DEBUG_NAME = None
  ∧ ∃ result messages,
      compile_permutation d3d sample_shader debug_options permutation
      = inr (true, result, messages)
      ∧ Data result = [x44; x58; x42; x43]
      ∧ Data result ≠ [x44; x58; x42; x43; x01].
Proof.
  simpl. split_and!; try reflexivity.
  eexists _, _. split_and!; [reflexivity | reflexivity | discriminate].
Qed.

(** C10. Once postprocessing is through, the worker follows the diagnostics
    pointer: with a blob there the iteration goes on with the backend's
    verdict, the result and the text; with a null pointer it faults, and the
    worker is stuck at the fault. *)
Theorem diagnostics_blob_is_dereferenced {O} d3d (shader : ShaderInfo O) options permutation
    result :
  post_processed d3d shader options permutation = inr result →
  compile_permutation d3d shader options permutation
  = match errors_blob (invoke_backend d3d shader options permutation) with
    | Some errors =>
        inr (hr_succeeded (invoke_backend d3d shader options permutation), result,
             string_of_list_byte errors)
    | None => inl NullDereference
    end
  ∧ (errors_blob (invoke_backend d3d shader options permutation) = None →
     ∀ c t, ∃ t', worker_step d3d shader options (Compiling permutation) c t
                  = Some (Faulted permutation NullDereference, c, t')
                  ∧ worker_step d3d shader options (Faulted permutation NullDereference) c t'
                    = None).
Proof.
  intros Hpost.
  assert (compile_permutation d3d shader options permutation
          = match errors_blob (invoke_backend d3d shader options permutation) with
            | Some errors =>
                inr (hr_succeeded (invoke_backend d3d shader options permutation), result,
                     string_of_list_byte errors)
            | None => inl NullDereference
            end) as Hcompile.
  { rewrite compile_permutation_unfold, Hpost. simpl.
    by destruct (errors_blob _). }
  split; [exact Hcompile|].
  intros Hnull c t. rewrite Hnull in Hcompile.
  eexists. simpl. rewrite Hcompile. split; reflexivity.
Qed.

(** A clean compile that returns no diagnostics blob makes the worker fault. *)
Lemma diagnostics_blob_is_dereferenced_witness :
  hr_succeeded (invoke_backend sample_d3d sample_shader release_options (quiet_permutation "0"))
  = true
  ∧ errors_blob (invoke_backend sample_d3d sample_shader release_options (quiet_permutation "0"))
    = None
  ∧ compile_permutation sample_d3d sample_shader release_options (quiet_permutation "0")
    = inl NullDereference.
Proof.
  split; [reflexivity|]. split; [reflexivity|].
  exact (proj1 (diagnostics_blob_is_dereferenced sample_d3d sample_shader release_options
                  (quiet_permutation "0")
                  {| ShaderKey := "0"; Data := [x44; x58; x42; x43; x01];
                     PdbName := ""; PdbData := [] |} eq_refl)).
Defined.

(** ** The line reader *)

Lemma getline_shorter stream :
  stream ≠ EmptyString →
  (String.length (getline stream).2 < String.length stream)%nat.
Proof.
  induction stream as [|c rest IH]; [done|]. intros _. simpl.
  destruct (Ascii.eqb c newline); simpl; [lia|].
  destruct rest as [|c' rest'].
  - simpl. lia.
  - specialize (IH ltac:(done)).
    destruct (getline (String c' rest')) as [message remaining]. simpl in *. lia.
Qed.

(** More fuel than the stream has characters changes nothing. *)
Lemma read_lines_fuel fuel1 fuel2 stream :
  (String.length stream ≤ fuel1)%nat → (String.length stream ≤ fuel2)%nat →
  read_lines fuel1 stream = read_lines fuel2 stream.
Proof.
  revert fuel2 stream. induction fuel1 as [|fuel1 IH]; intros fuel2 stream H1 H2.
  - destruct stream; simpl in *; [by destruct fuel2 | lia].
  - destruct stream as [|c rest]; [by destruct fuel2|].
    destruct fuel2 as [|fuel2]; [simpl in *; lia|].
    cbn [read_lines].
    pose proof (getline_shorter (String c rest) ltac:(done)) as Hshort.
    destruct (getline (String c rest)) as [message remaining].
    f_equal. simpl in *. apply IH; lia.
Qed.

(** One turn of the [while] loop. *)
Lemma diagnostic_lines_getline stream :
  stream ≠ EmptyString →
  diagnostic_lines stream = (getline stream).1 :: diagnostic_lines (getline stream).2.
Proof.
  intros Hstream. unfold diagnostic_lines.
  pose proof (getline_shorter stream Hstream) as Hshort.
  destruct stream as [|c rest]; [done|].
  cbn [String.length read_lines].
  destruct (getline (String c rest)) as [message remaining]. simpl in *.
  f_equal. apply read_lines_fuel; lia.
Qed.

Lemma diagnostic_lines_empty : diagnostic_lines EmptyString = [].
Proof. reflexivity. Qed.

(** The pattern on sample lines, and the reader on a text with an empty
    line. *)
Example ignore_sample :
  regex_match "s.hlsl(3,9): warning X3568: 'namespace' : unknown pragma ignored"
    warningIgnoreRegex = true.
Proof. vm_compute. reflexivity. Qed.

Example ignore_sample_bare :
  regex_match ": warning X3568: 'target' : unknown pragma ignored" warningIgnoreRegex = true.
Proof. vm_compute. reflexivity. Qed.

Example ignore_sample_other_pragma :
  regex_match "s.hlsl(3,9): warning X3568: 'once' : unknown pragma ignored"
    warningIgnoreRegex = false.
Proof. vm_compute. reflexivity. Qed.

Example lines_sample :
  diagnostic_lines (line "a" +:+ line "" +:+ "b") = ["a"; ""; "b"]
  ∧ diagnostic_lines (line "a" +:+ line "b") = ["a"; "b"].
Proof. vm_compute. split; reflexivity. Qed.

(** ** The ignore pattern *)

Lemma append_eq_nil s1 s2 : s1 +:+ s2 = EmptyString → s1 = EmptyString ∧ s2 = EmptyString.
Proof. by destruct s1. Qed.

Lemma matches_cat_inv r1 r2 s :
  matches (Cat r1 r2) s ↔ ∃ s1 s2, s = s1 +:+ s2 ∧ matches r1 s1 ∧ matches r2 s2.
Proof.
  split.
  - inversion 1; subst; eauto.
  - intros (s1 & s2 & -> & H1 & H2). by constructor.
Qed.

Lemma nullable_matches r : nullable r = true ↔ matches r EmptyString.
Proof.
  induction r as [| | | |r1 IH1 r2 IH2|r1 IH1 r2 IH2|r IH]; simpl.
  - split; [done|]. inversion 1.
  - split; [constructor|done].
  - split; [done|]. inversion 1.
  - split; [done|]. inversion 1.
  - rewrite andb_true_iff, IH1, IH2. split.
    + intros [H1 H2]. apply (matches_cat _ _ EmptyString EmptyString); done.
    + intros (s1 & s2 & Heq & H1 & H2)%matches_cat_inv.
      symmetry in Heq. apply append_eq_nil in Heq as [-> ->]. done.
  - rewrite orb_true_iff, IH1, IH2. split.
    + intros [?|?]; [by apply matches_alt_l|by apply matches_alt_r].
    + inversion 1; subst; auto.
  - split; [constructor|done].
Qed.

(** A match of [Star r] against a string that starts with [c] begins with a
    match of [r] that starts with [c]. *)
Lemma matches_star_inv r c s :
  matches (Star r) (String c s) →
  ∃ s1 s2, s = s1 +:+ s2 ∧ matches r (String c s1) ∧ matches (Star r) s2.
Proof.
  assert (∀ r' s', matches r' s' → ∀ s, r' = Star r → s' = String c s →
            ∃ s1 s2, s = s1 +:+ s2 ∧ matches r (String c s1) ∧ matches (Star r) s2) as Hgen.
  { induction 1 as [| | | | | | |r0 t1 t2 H1 _ H2 IH2]; intros rest Hr Hs; simplify_eq.
    destruct t1 as [|c1 t1].
    - by apply IH2.
    - change (String c1 (t1 +:+ t2) = String c rest) in Hs. simplify_eq. eauto. }
  eauto.
Qed.

Lemma derive_matches r c s : matches (derive c r) s ↔ matches r (String c s).
Proof.
  revert s. induction r as [| |c'| |r1 IH1 r2 IH2|r1 IH1 r2 IH2|r IH]; intros s; simpl.
  - split; inversion 1.
  - split; inversion 1.
  - destruct (Ascii.eqb_spec c c') as [->|Hne].
    + split; inversion 1; subst; constructor.
    + split; inversion 1; subst; done.
  - destruct (line_terminator c) eqn:Hc.
    + split; inversion 1; subst; congruence.
    + split; inversion 1; subst; by constructor.
  - assert (matches (Cat (derive c r1) r2) s → matches (Cat r1 r2) (String c s)) as Hfirst.
    { intros (s1 & s2 & -> & H1 & H2)%matches_cat_inv.
      apply IH1 in H1. by apply (matches_cat _ _ (String c s1) s2). }
    assert (matches (Cat r1 r2) (String c s) →
            matches (Cat (derive c r1) r2) s
            ∨ (matches r1 EmptyString ∧ matches (derive c r2) s)) as Hinv.
    { intros (s1 & s2 & Heq & H1 & H2)%matches_cat_inv.
      destruct s1 as [|c1 s1].
      - right. split; [done|]. apply IH2. by rewrite Heq.
      - change (String c s = String c1 (s1 +:+ s2)) in Heq. simplify_eq.
        left. apply matches_cat; [by apply IH1|done]. }
    destruct (nullable r1) eqn:Hnull.
    + split.
      * inversion 1; subst; [by apply Hfirst|].
        apply (matches_cat _ _ EmptyString (String c s)); [by apply nullable_matches|].
        by apply IH2.
      * intros [?|[_ ?]]%Hinv; [by apply matches_alt_l|by apply matches_alt_r].
    + split; [exact Hfirst|].
      intros [?|[Hnil _]]%Hinv; [done|].
      apply nullable_matches in Hnil. congruence.
  - split.
    + inversion 1; subst; [apply matches_alt_l|apply matches_alt_r]; by apply IH1 || by apply IH2.
    + inversion 1; subst; [apply matches_alt_l|apply matches_alt_r]; by apply IH1 || by apply IH2.
  - split.
    + intros (s1 & s2 & -> & H1 & H2)%matches_cat_inv.
      apply IH in H1. by apply (matches_star_more _ (String c s1) s2).
    + intros (s1 & s2 & -> & H1 & H2)%matches_star_inv.
      apply matches_cat; [by apply IH|done].
Qed.

(** The matcher decides the pattern's language. *)
Lemma regex_match_matches message re :
  regex_match message re = true ↔ matches re message.
Proof.
  revert re. induction message as [|c message IH]; intros re; simpl.
  - apply nullable_matches.
  - by rewrite IH, derive_matches.
Qed.

Lemma matches_literal s s' : matches (literal s) s' ↔ s' = s.
Proof.
  revert s'. induction s as [|c s IH]; intros s'; simpl.
  - split; [by inversion 1|intros ->; constructor].
  - split.
    + intros (s1 & s2 & -> & H1 & H2)%matches_cat_inv.
      inversion H1; subst. apply IH in H2 as ->. done.
    + intros ->. apply (matches_cat _ _ (String c EmptyString) s); [constructor|by apply IH].
Qed.

Lemma matches_any_star s : matches (Star AnyChar) s ↔ single_line s = true.
Proof.
  induction s as [|c s IH]; simpl.
  - split; [done|constructor].
  - rewrite andb_true_iff, negb_true_iff, <-IH. split.
    + intros (s1 & s2 & -> & H1 & H2)%matches_star_inv.
      inversion H1; subst. done.
    + intros [Hc Hs].
      apply (matches_star_more _ (String c EmptyString) s); [by constructor|done].
Qed.

Lemma matches_alt_inv r1 r2 s : matches (Alt r1 r2) s ↔ matches r1 s ∨ matches r2 s.
Proof.
  split.
  - inversion 1; subst; auto.
  - intros [?|?]; [by apply matches_alt_l|by apply matches_alt_r].
Qed.

(** X1. The lines the worker drops.  [regex_match] with the ignore pattern
    accepts a line exactly when the line is a prefix without line terminator,
    then the warning X3568 about one of the four pragmas the engine reads
    itself, and nothing after it: the same warning about another pragma, or
    followed by anything, a carriage return for one, is reported. *)
Lemma warningIgnoreRegex_matches message :
  regex_match message warningIgnoreRegex = true
  ↔ ∃ prefix pragma,
      message = prefix +:+ ": warning X3568: '" +:+ pragma +:+ "' : unknown pragma ignored"
      ∧ single_line prefix = true
      ∧ pragma ∈ engine_pragmas.
Proof.
  rewrite regex_match_matches. unfold warningIgnoreRegex, engine_pragmas. split.
  - intros (prefix & ? & -> & Hprefix%matches_any_star & H)%matches_cat_inv.
    apply matches_cat_inv in H as (? & ? & -> & ->%matches_literal & H).
    apply matches_cat_inv in H as (pragma & ? & -> & Hpragma & ->%matches_literal).
    exists prefix, pragma. split; [done|]. split; [done|].
    rewrite !matches_alt_inv, !matches_literal in Hpragma.
    rewrite !elem_of_cons. tauto.
  - intros (prefix & pragma & -> & Hprefix & Hpragma).
    apply matches_cat; [by apply matches_any_star|].
    apply matches_cat; [by apply matches_literal|].
    apply matches_cat; [|by apply matches_literal].
    rewrite !matches_alt_inv, !matches_literal.
    rewrite !elem_of_cons, elem_of_nil in Hpragma. tauto.
Qed.

(** ** Workers in a list *)

(** What the workers hold changes only by what the stepping worker holds. *)
Lemma bind_insert_worker {B} (f : Worker → list B) ws i w w' :
  ws !! i = Some w →
  ∃ others, ws ≫= f ≡ₚ f w ++ others ∧ <[i := w']> ws ≫= f ≡ₚ f w' ++ others.
Proof.
  intros Hi. exists ((take i ws ++ drop (S i) ws) ≫= f).
  rewrite insert_take_drop by (by eapply lookup_lt_Some).
  rewrite <-(take_drop_middle ws i w Hi) at 1.
  rewrite !bind_app, !bind_cons. split; solve_Permutation.
Qed.

Lemma elem_of_insert_worker (ws : list Worker) i w' x :
  x ∈ <[i := w']> ws → x = w' ∨ x ∈ ws.
Proof.
  revert i. induction ws as [|w ws IH]; intros i; [by right|].
  destruct i as [|i]; simpl; rewrite !elem_of_cons.
  - tauto.
  - intros [->|H]; [by auto|]. apply IH in H. tauto.
Qed.

Lemma bind_all_returned {B} (f : Worker → list B) ws :
  f Returned = [] → Forall (λ w, w = Returned) ws → ws ≫= f = [].
Proof.
  intros Hf. induction 1 as [|w ws -> _ IH]; [done|].
  by rewrite bind_cons, Hf, IH.
Qed.

Lemma all_returned_joined σ : all_returned σ = true → Forall (λ w, w = Returned) (workers σ).
Proof.
  unfold all_returned. rewrite forallb_forall, Forall_forall.
  intros H w Hw. apply list_elem_of_In, H in Hw. by destruct w.
Qed.

Lemma sum_list_with_insert {A} (f : A → nat) (l : list A) i x y :
  l !! i = Some x →
  (sum_list_with f (<[i := y]> l) + f x = sum_list_with f l + f y)%nat.
Proof.
  revert i. induction l as [|a l IH]; intros i Hi; [done|].
  destruct i as [|i]; simplify_eq/=; [lia|].
  specialize (IH i Hi). lia.
Qed.

(** ** The line reader and the text *)

Lemma getline_delimiter message remaining :
  delimiter_free message = true →
  getline (message +:+ String newline remaining) = (message, remaining).
Proof.
  induction message as [|c message IH]; intros Hfree.
  - reflexivity.
  - cbn [delimiter_free] in Hfree. apply andb_true_iff in Hfree as [Hc Hfree].
    change (getline (String c (message +:+ String newline remaining))
            = (String c message, remaining)).
    cbn [getline]. apply negb_true_iff in Hc. rewrite Hc, (IH Hfree). reflexivity.
Qed.

(** What one call of [getline] takes off a stream: a line up to the first
    delimiter, or the whole stream when it holds none. *)
Lemma getline_split stream :
  delimiter_free (getline stream).1 = true
  ∧ (stream = (getline stream).1 +:+ String newline (getline stream).2
     ∨ stream = (getline stream).1 ∧ (getline stream).2 = EmptyString
       ∧ delimiter_free stream = true).
Proof.
  induction stream as [|c rest [IHfree IH]]; cbn [getline].
  - split; [done|]. by right.
  - destruct (Ascii.eqb c newline) eqn:Hc.
    + apply Ascii.eqb_eq in Hc as ->. split; [done|]. by left.
    + destruct (getline rest) as [message remaining]. cbn [fst snd] in *.
      cbn [delimiter_free]. rewrite Hc. split; [done|].
      destruct IH as [->|(-> & -> & Hfree)].
      * by left.
      * right. cbn [negb andb]. done.
Qed.

Lemma last_character_append s1 s2 :
  s2 ≠ EmptyString → last_character (s1 +:+ s2) = last_character s2.
Proof.
  intros Hs2. induction s1 as [|c s1 IH]; [done|].
  change (last_character (String c (s1 +:+ s2)) = last_character s2).
  cbn [last_character]. destruct (s1 +:+ s2) eqn:Happ; [|done].
  by apply append_eq_nil in Happ as [_ ?].
Qed.

Lemma unterminated_after_delimiter message remaining :
  unterminated (message +:+ String newline remaining) = unterminated remaining.
Proof.
  unfold unterminated. rewrite last_character_append by done.
  cbn [last_character]. destruct remaining; [|done].
  cbn. reflexivity.
Qed.

Lemma delimiter_free_unterminated text :
  text ≠ EmptyString → delimiter_free text = true → unterminated text = true.
Proof.
  unfold unterminated. induction text as [|c text IH]; [done|]. intros _ Hfree.
  cbn [delimiter_free] in Hfree. apply andb_true_iff in Hfree as [Hc Hfree].
  cbn [last_character]. destruct text as [|c' text']; [done|].
  by apply IH.
Qed.

Lemma unlines_lines text :
  unlines (diagnostic_lines text)
  = if unterminated text then text +:+ String newline EmptyString else text.
Proof.
  remember (String.length text) as n eqn:Hn. revert text Hn.
  induction (lt_wf n) as [n _ IH]. intros text ->.
  destruct (decide (text = EmptyString)) as [->|Hne]; [reflexivity|].
  rewrite (diagnostic_lines_getline _ Hne). cbn [unlines].
  pose proof (getline_shorter text Hne) as Hshort.
  rewrite (IH _ Hshort _ eq_refl). clear IH Hshort.
  destruct (getline_split text) as [_ Hsplit].
  destruct (getline text) as [message remaining]. cbn [fst snd] in *.
  destruct Hsplit as [->|(-> & -> & Hfree)].
  - rewrite unterminated_after_delimiter.
    destruct (unterminated remaining); [|done].
    clear. induction message as [|c s IH]; [done|].
    change (String c (s +:+ String newline (remaining +:+ String newline ""))
            = String c ((s +:+ String newline remaining) +:+ String newline "")).
    by rewrite IH.
  - cbn [unterminated last_character].
    by rewrite (delimiter_free_unterminated message Hne Hfree).
Qed.

Lemma lines_delimiter_free text :
  Forall (λ message, delimiter_free message = true) (diagnostic_lines text).
Proof.
  remember (String.length text) as n eqn:Hn. revert text Hn.
  induction (lt_wf n) as [n _ IH]. intros text ->.
  destruct (decide (text = EmptyString)) as [->|Hne]; [constructor|].
  rewrite (diagnostic_lines_getline _ Hne). constructor.
  - apply getline_split.
  - apply (IH _ (getline_shorter text Hne) _ eq_refl).
Qed.

Lemma lines_unlines lines :
  Forall (λ message, delimiter_free message = true) lines →
  diagnostic_lines (unlines lines) = lines.
Proof.
  induction 1 as [|message lines Hfree _ IH]; [reflexivity|].
  cbn [unlines]. rewrite diagnostic_lines_getline.
  - rewrite (getline_delimiter _ _ Hfree). cbn [fst snd]. by rewrite IH.
  - intros [_ ?]%append_eq_nil. done.
Qed.

(** X2. The [while (getline(...))] loop visits the text the backend returned
    line by line and loses nothing: no line it visits holds the delimiter,
    the lines put together again, each with its delimiter, are the text (with
    the delimiter added that a last line lacks), and a text made of lines is
    read back as these lines.  So an empty line inside the text is visited,
    and a delimiter at the very end opens no further line. *)
Theorem diagnostics_read_line_by_line :
  (∀ text, Forall (λ message, delimiter_free message = true) (diagnostic_lines text))
  ∧ (∀ text,
       unlines (diagnostic_lines text)
       = if unterminated text then text +:+ String newline EmptyString else text)
  ∧ (∀ lines,
       Forall (λ message, delimiter_free message = true) lines →
       diagnostic_lines (unlines lines) = lines).
Proof.
  split_and!; [apply lines_delimiter_free|apply unlines_lines|apply lines_unlines].
Qed.

(** ** When a worker faults *)

Lemma c_string_is_Some bytes : is_Some (c_string bytes) ↔ x00 ∈ bytes.
Proof.
  induction bytes as [|b bytes IH]; cbn [c_string].
  - split; [by intros [? ?]|by intros ?%elem_of_nil].
  - destruct (decide (b = x00)) as [->|Hb].
    + split; [intros _; by left|eauto].
    + rewrite fmap_is_Some, IH, elem_of_cons.
      split; [by right|]. intros [Heq|?]; [by destruct Hb|done].
Qed.

(** X8. The pointers the worker follows unchecked.  One iteration of the
    worker is free of faults exactly when the backend returns a diagnostics
    blob and, in case the compilation succeeded, a binary blob as well; with
    [IsDebug] and [UseExternalDebugSymbols] both set, [D3DStripShader] must
    also return a blob (its [HRESULT] is not looked at), and the debug name,
    when both debug parts were found, must hold a zero byte after its header.
    After a failed compilation the binary is not touched, whatever the
    options. *)
Theorem worker_faults_exactly_when {O} d3d (shader : ShaderInfo O) options permutation :
  let compiled := invoke_backend d3d shader options permutation in
  fault_free d3d shader options permutation
  ↔ is_Some (errors_blob compiled)
    ∧ (hr_succeeded compiled = true →
       ∃ bin, binary_blob compiled = Some bin
              ∧ (IsDebug options && UseExternalDebugSymbols options = true →
                 is_Some (D3DStripShader d3d bin)
                 ∧ (is_Some (D3DGetBlobPart d3d bin D3D_BLOB_PDB) →
                    ∀ name, D3DGetBlobPart d3d bin D3D_BLOB_DEBUG_NAME = Some name →
                            x00 ∈ drop sizeof_ShaderDebugName name))).
Proof.
  intros compiled. unfold fault_free, compile_permutation. cbv zeta. fold compiled.
  destruct compiled as [success binary errors]. cbn [hr_succeeded binary_blob errors_blob].
  destruct success; cycle 1.
  { destruct errors as [errors|]; cbn.
    - split; [|done]. intros _. split; [by eexists|done].
    - split; [intros H; by destruct (H NullDereference)|by intros [[? ?] _]]. }
  unfold post_process.
  destruct (IsDebug options && UseExternalDebugSymbols options) eqn:Hexternal; cycle 1.
  { destruct binary as [bin|], errors as [errors|]; cbn.
    - split; [|done]. intros _. split; [by eexists|]. intros _. by exists bin.
    - split; [intros H; by destruct (H NullDereference)|by intros [[? ?] _]].
    - split; [intros H; by destruct (H NullDereference)|].
      intros [_ H]. by destruct (H eq_refl) as (? & ? & _).
    - split; [intros H; by destruct (H NullDereference)|by intros [[? ?] _]]. }
  unfold get_debug_information.
  destruct binary as [bin|]; cycle 1.
  { cbn. split; [intros H; by destruct (H NullDereference)|].
    intros [_ H]. by destruct (H eq_refl) as (? & ? & _). }
  cbn [deref mbind checked_bind].
  assert (∀ name, is_Some (debug_file_name name) ↔ x00 ∈ drop sizeof_ShaderDebugName name)
    as Hname by (intros name; apply c_string_is_Some).
  destruct (D3DGetBlobPart d3d bin D3D_BLOB_PDB) as [pdb|] eqn:Hpdb;
    [destruct (D3DGetBlobPart d3d bin D3D_BLOB_DEBUG_NAME) as [name|] eqn:Hblob;
     [destruct (debug_file_name name) as [fileName|] eqn:Hfile|]|];
    cbn [mbind checked_bind].
  2:{ split; [intros H; by destruct (H BufferOverread)|].
      intros (_ & H). destruct (H eq_refl) as (? & [= <-] & H').
      destruct (H' eq_refl) as [_ H'']. specialize (H'' ltac:(by eexists) name Hblob).
      apply Hname in H'' as [? H'']. congruence. }
  all: destruct (D3DStripShader d3d bin) as [stripped|] eqn:Hstrip; cbn [deref];
    destruct errors as [errors|]; cbn;
    (split;
     [first [intros H; by destruct (H NullDereference) | intros _]
     |first [done | by intros [[? ?] _]
             | intros [_ H]; destruct (H eq_refl) as (? & [= <-] & H');
               destruct (H' eq_refl) as [[? ?] _]; congruence ]]).
  all: split; [by eexists|]; intros _; exists bin; split; [done|]; intros _;
    split; [by eexists|]; intros Hsome name' Hname';
    rewrite ?Hpdb, ?Hblob in *; simplify_eq;
    try (by destruct Hsome); apply Hname; by eexists.
Qed.

(** ** The flag bits *)

Lemma testbit_shiftl_one k n :
  0 ≤ k → 0 ≤ n → Z.testbit (Z.shiftl 1 k) n = (n =? k).
Proof.
  intros Hk Hn. rewrite Z.shiftl_spec by done.
  destruct (Z.eqb_spec n k) as [->|Hne].
  - by rewrite Z.sub_diag.
  - destruct (n - k) as [|p|p] eqn:Hd; [lia| |done]. by destruct p.
Qed.

(** X9. The flags handed to the backend, bit by bit, for the flag values of
    the Windows SDK.  Bits 0 and 23 say whether [IsDebug] is set, whatever the
    optimization level; bit 2 is set for level -1, bit 14 for the levels 0 and
    2, bit 15 for the levels 2 and 3, whatever [IsDebug] says; no other bit is
    ever set, so the flags fit the 32 bits of [uint32_t].  Level 1 sets no
    bit, like a level outside -1..3. *)
Theorem compilation_flags_bits compile part strip options :
  let flags := compilation_flags (windows_sdk compile part strip) options in
  let level := OptimizationLevel options in
  0 ≤ flags < 2 ^ 24
  ∧ ∀ n, 0 ≤ n →
         Z.testbit flags n
         = if (n =? 0) || (n =? 23) then IsDebug options
           else if n =? 2 then level =? -1
           else if n =? 14 then (level =? 0) || (level =? 2)
           else if n =? 15 then (level =? 2) || (level =? 3)
           else false.
Proof.
  intros flags level. subst flags.
  unfold compilation_flags, debug_flags, optimization_switch. fold level.
  cbn [windows_sdk D3DCOMPILE_DEBUG D3DCOMPILE_DEBUG_NAME_FOR_BINARY
       D3DCOMPILE_SKIP_OPTIMIZATION D3DCOMPILE_OPTIMIZATION_LEVEL0
       D3DCOMPILE_OPTIMIZATION_LEVEL1 D3DCOMPILE_OPTIMIZATION_LEVEL2
       D3DCOMPILE_OPTIMIZATION_LEVEL3].
  split.
  - destruct (IsDebug options);
      destruct (level =? -1); [|destruct (level =? 0); [|destruct (level =? 1);
        [|destruct (level =? 2); [|destruct (level =? 3)]]]| |destruct (level =? 0);
        [|destruct (level =? 1); [|destruct (level =? 2); [|destruct (level =? 3)]]]];
      vm_compute; split; congruence.
  - intros n Hn.
    assert (∀ a b, Z.testbit (Z.lor a b) n = Z.testbit a n || Z.testbit b n) as Hlor
      by (intros; apply Z.lor_spec).
    destruct (IsDebug options);
      destruct (Z.eqb_spec level (-1)) as [->|?];
      [|destruct (Z.eqb_spec level 0) as [->|?];
        [|destruct (Z.eqb_spec level 1) as [->|?];
          [|destruct (Z.eqb_spec level 2) as [->|?];
            [|destruct (Z.eqb_spec level 3) as [->|?]]]]
      | |destruct (Z.eqb_spec level 0) as [->|?];
        [|destruct (Z.eqb_spec level 1) as [->|?];
          [|destruct (Z.eqb_spec level 2) as [->|?];
            [|destruct (Z.eqb_spec level 3) as [->|?]]]]];
      rewrite ?Hlor, ?testbit_shiftl_one, ?Z.bits_0 by lia;
      destruct (Z.eqb_spec n 0) as [->|?]; try reflexivity;
      destruct (Z.eqb_spec n 23) as [->|?]; try reflexivity;
      destruct (Z.eqb_spec n 2) as [->|?]; try reflexivity;
      destruct (Z.eqb_spec n 14) as [->|?]; try reflexivity;
      destruct (Z.eqb_spec n 15) as [->|?]; reflexivity.
Qed.

(** ** The invariant of a batch *)

#[local] Arguments compile_permutation : simpl never.
#[local] Arguments saved_result : simpl never.
#[local] Arguments getline : simpl never.
#[local] Arguments diagnostic_lines : simpl never.
#[local] Arguments with_memory_behind : simpl never.

(** *** Memory behind the debug name *)

Lemma c_string_app bytes behind name :
  c_string bytes = Some name → c_string (bytes ++ behind) = Some name.
Proof.
  revert name. induction bytes as [|b bytes IH]; intros name; cbn [c_string app]; [done|].
  destruct (decide (b = x00)); [done|].
  destruct (c_string bytes) as [rest|] eqn:Hrest; [|done].
  intros [= <-]. by rewrite (IH rest eq_refl).
Qed.

Lemma debug_file_name_app nameBlob behind name :
  debug_file_name nameBlob = Some name → debug_file_name (nameBlob ++ behind) = Some name.
Proof.
  unfold debug_file_name. intros Hname. rewrite drop_app. by apply c_string_app.
Qed.

Lemma invoke_backend_behind {O} behind d3d (shader : ShaderInfo O) options permutation :
  invoke_backend (with_memory_behind behind d3d) shader options permutation
  = invoke_backend d3d shader options permutation.
Proof. reflexivity. Qed.

(** A name that ends inside its blob is read the same whatever stands behind
    the blob. *)
Lemma compile_permutation_behind {O} behind d3d (shader : ShaderInfo O) options permutation
    outcome :
  compile_permutation d3d shader options permutation = inr outcome →
  compile_permutation (with_memory_behind behind d3d) shader options permutation
  = inr outcome.
Proof.
  unfold compile_permutation. cbv zeta. rewrite invoke_backend_behind.
  destruct (invoke_backend d3d shader options permutation) as [success binary errors].
  cbn [hr_succeeded binary_blob errors_blob].
  destruct success; [|done].
  unfold post_process.
  destruct (IsDebug options && UseExternalDebugSymbols options); [|done].
  unfold get_debug_information.
  destruct binary as [bin|]; [|done]. cbn [deref mbind checked_bind].
  unfold with_memory_behind. cbn [D3DGetBlobPart D3DStripShader].
  destruct (D3DGetBlobPart d3d bin D3D_BLOB_PDB) as [pdb|];
    [|by destruct (D3DGetBlobPart d3d bin D3D_BLOB_DEBUG_NAME)].
  destruct (D3DGetBlobPart d3d bin D3D_BLOB_DEBUG_NAME) as [nameBlob|]; [|done].
  cbn [fmap option_fmap option_map].
  destruct (debug_file_name nameBlob) as [name|] eqn:Hname; [|done].
  by rewrite (debug_file_name_app _ behind _ Hname).
Qed.

Section BatchProofs.
Context {ShaderOptions : Type}.
Context (d3d : D3DCompiler) (shader : ShaderInfo ShaderOptions)
        (options : ShaderCompilationArguments).

Abbreviation step_at := (pool_step_at d3d shader options).
Abbreviation orderly := (orderly_step d3d shader options).
Abbreviation step := (pool_step d3d shader options).
Abbreviation invariant := (batch_invariant d3d shader options).

Lemma compile_computes permutation success result text :
  compile_permutation d3d shader options permutation = inr (success, result, text) →
  computes d3d shader options permutation success result text.
Proof. intros Hcompile. exists []. by apply compile_permutation_behind. Qed.

Lemma computes_outcome permutation success result text :
  computes d3d shader options permutation success result text →
  success = hr_succeeded (invoke_backend d3d shader options permutation)
  ∧ ShaderKey result = Key permutation
  ∧ ∃ errors, errors_blob (invoke_backend d3d shader options permutation) = Some errors
              ∧ text = string_of_list_byte errors.
Proof.
  intros [behind Hcompile]. apply compile_permutation_inr in Hcompile.
  by rewrite invoke_backend_behind in Hcompile.
Qed.

Lemma computes_lines permutation success result text :
  computes d3d shader options permutation success result text →
  permutation_lines d3d shader options permutation = diagnostic_lines text.
Proof.
  intros (_ & _ & errors & Herrors & ->)%computes_outcome.
  unfold permutation_lines. by rewrite Herrors.
Qed.

(** Without a fault there is one thing an iteration can compute. *)
Lemma computes_saved permutation outcome success result text :
  compile_permutation d3d shader options permutation = inr outcome →
  computes d3d shader options permutation success result text →
  outcome = (success, result, text).
Proof.
  intros Hcompile [behind Hbehind].
  rewrite (compile_permutation_behind behind _ _ _ _ _ Hcompile) in Hbehind. congruence.
Qed.

Lemma pool_step_at_Some i σ σ' :
  step_at i σ = Some σ' →
  ∃ w w', workers σ !! i = Some w
          ∧ worker_step d3d shader options w (context σ) (trace σ)
            = Some (w', context σ', trace σ')
          ∧ workers σ' = <[i := w']> (workers σ).
Proof.
  unfold pool_step_at. intros H.
  destruct (workers σ !! i) as [w|] eqn:Hw; [|done]. simpl in H.
  destruct (worker_step d3d shader options w (context σ) (trace σ))
    as [[[w' c'] t']|] eqn:Hs; [|done].
  simplify_eq/=. eauto 6.
Qed.

Lemma bind_replicate_nil {B} (f : Worker → list B) n w :
  f w = [] → replicate n w ≫= f = [].
Proof.
  intros Hf. induction n as [|n IH]; [done|].
  cbn [replicate]. by rewrite bind_cons, Hf, IH.
Qed.

Lemma batch_invariant_spawn hardware_concurrency permutations :
  invariant permutations (spawn hardware_concurrency permutations).
Proof.
  split; unfold spawn; cbn [context trace workers dequeued invoked finished printed handed
    Input Output IsFailed Messages]; rewrite ?bind_replicate_nil by done; try done.
  - by intros [? _]%elem_of_replicate.
  - apply Forall_forall. by intros w [-> _]%elem_of_replicate.
  - by intros m ?%elem_of_nil.
Qed.

(** A worker in the middle of an iteration holds an item the backend was
    called for. *)
Lemma in_progress_invoked permutations σ i w permutation :
  invariant permutations σ → workers σ !! i = Some w → permutation ∈ in_progress w →
  permutation ∈ invoked (trace σ).
Proof.
  intros Hinv Hlook Hp. rewrite (inv_invoked _ _ _ _ _ Hinv). apply elem_of_app. right.
  apply list_elem_of_bind. exists w. split; [done|]. by eapply list_elem_of_lookup_2.
Qed.

(** A step that changes one worker, neither the item it holds nor the stage
    the item is at, and of the context at most [Messages]. *)
Lemma batch_invariant_replace permutations σ σ' i w w' :
  invariant permutations σ →
  workers σ !! i = Some w → workers σ' = <[i := w']> (workers σ) →
  trace σ' = trace σ →
  Input (context σ') = Input (context σ) →
  IsFailed (context σ') = IsFailed (context σ) →
  Output (context σ') = Output (context σ) →
  taken w' = taken w → in_progress w' = in_progress w → w' ≠ Returned →
  worker_invariant d3d shader options w' →
  invariant permutations σ'.
Proof.
  intros [Hq Ht Hi Hr Ho Hf Hw Hfin Hp Hh] Hlook Hws Htrace Hin Hfailed Hout
    Htaken Hprogress Hreturned Hw'.
  destruct (bind_insert_worker taken _ i w w' Hlook) as (T & HT & HT').
  destruct (bind_insert_worker in_progress _ i w w' Hlook) as (P & HP & HP').
  split; rewrite ?Hws, ?Htrace, ?Hin, ?Hfailed, ?Hout; try done.
  - rewrite HT', Htaken. by rewrite HT in Ht.
  - rewrite HP', Hprogress. by rewrite HP in Hi.
  - intros [?|?]%elem_of_insert_worker; [by subst|auto].
  - by apply Forall_insert.
Qed.

Lemma batch_invariant_race permutations σ σ' :
  invariant permutations σ → race_step σ σ' → invariant permutations σ'.
Proof.
  intros Hinv (i & w & p & success & result & message & remaining & w' & M'
               & Hlook & Hcall & _ & Hw' & ->).
  pose proof (proj1 (Forall_lookup _ _) (inv_workers _ _ _ _ _ Hinv) i w Hlook) as Hw.
  assert (in_progress w = [p]
          ∧ taken w = []
          ∧ ∃ text, computes d3d shader options p success result text
                    ∧ reported message
                    ∧ message ∈ diagnostic_lines text
                    ∧ diagnostic_lines remaining ⊆ diagnostic_lines text)
    as (Hprogress & Htaken & text & Hcomputes & Hreported & Hmessage & Hremaining).
  { destruct w; simpl in Hcall, Hw; try done.
    - destruct Hw as (text & Hcomputes & Hlines).
      destruct messages as [|a messages]; [done|].
      rewrite (diagnostic_lines_getline (String a messages)) in Hlines by done.
      destruct (getline (String a messages)) as [message' remaining'].
      destruct (regex_match message' warningIgnoreRegex) eqn:Hre; simplify_eq/=.
      split; [done|]. split; [done|]. exists text. split; [done|]. split; [done|].
      split; [apply Hlines; by left|]. intros l Hl. apply Hlines. by right.
    - simplify_eq/=. split; [done|]. split; [done|]. done. }
  eapply (batch_invariant_replace permutations σ _ i w w'); eauto.
  - destruct Hw' as [->|[->| ->]]; by rewrite Htaken.
  - destruct Hw' as [->|[->| ->]]; by rewrite Hprogress.
  - by destruct Hw' as [->|[->| ->]].
  - destruct Hw' as [->|[->| ->]]; simpl; [by left|by exists text|by exists text].
Qed.

Lemma batch_invariant_overread permutations σ σ' :
  invariant permutations σ → overread_step d3d shader options σ σ' → invariant permutations σ'.
Proof.
  intros Hinv (i & p & behind & success & result & messages & Hlook & Hcompile & ->).
  eapply (batch_invariant_replace permutations σ _ i (Faulted p BufferOverread)); eauto.
  simpl. exists messages. split; [by exists behind|done].
Qed.

Lemma batch_invariant_orderly permutations σ σ' :
  invariant permutations σ → orderly σ σ' → invariant permutations σ'.
Proof.
  intros Hinv [i Hstep]. pose proof Hinv as [Hq Ht Hi Hr Ho Hf Hw Hfin Hp Hh].
  apply pool_step_at_Some in Hstep as (w & w' & Hlook & Hstep & Hws).
  destruct (bind_insert_worker taken _ i w w' Hlook) as (T & HT & HT').
  destruct (bind_insert_worker in_progress _ i w w' Hlook) as (P & HP & HP').
  assert (worker_invariant d3d shader options w) as Hinvw.
  { eapply Forall_lookup_1; eauto. }
  assert (∀ p, p ∈ in_progress w → p ∈ invoked (trace σ)) as Hheld.
  { intros p. by eapply in_progress_invoked. }
  assert (Returned ∈ workers σ' → w' = Returned ∨ Input (context σ) = []) as Hr'.
  { rewrite Hws. intros [->|?]%elem_of_insert_worker; auto. }
  rewrite HT in Ht. rewrite HP in Hi. clear Hinv.
  destruct σ as [c t ws], σ' as [c' t' ws']. simpl in *. subst ws'.
  clear HT HP.
  (* what every case shares; the goals left are those the step bears on *)
  assert (∀ c' t' w',
    (Returned ∈ <[i:=w']> ws → w' = Returned ∨ Input c = []) →
    dequeued t' ++ Input c' = dequeued t ++ Input c →
    dequeued t' ≡ₚ invoked t' ++ taken w' ++ T →
    invoked t' ≡ₚ finished t' ++ in_progress w' ++ P →
    (w' = Returned ∨ Input c = [] → Input c' = []) →
    Forall2 (λ p r, ∃ text, computes d3d shader options p true r text)
      (filter (succeeds d3d shader options) (finished t')) (Output c') →
    IsFailed c' = existsb (λ p, negb (hr_succeeded (invoke_backend d3d shader options p)))
                    (finished t') →
    worker_invariant d3d shader options w' →
    Forall (λ p, ∃ success result text, computes d3d shader options p success result text)
      (finished t') →
    printed t' = c_str <$> handed t' →
    (∀ m, m ∈ handed t' →
          reported m ∧ ∃ p, p ∈ invoked t' ∧ m ∈ permutation_lines d3d shader options p) →
    <[i:=w']> ws ≫= taken ≡ₚ taken w' ++ T →
    <[i:=w']> ws ≫= in_progress ≡ₚ in_progress w' ++ P →
    invariant permutations {| context := c'; trace := t'; workers := <[i:=w']> ws |})
    as Hclose.
  { clear -Hw Hq. intros c' t' w' Hret Hq' Ht Hi Hr Ho Hf Hw' Hfin Hp Hh HT HP.
    split; simpl; try done.
    - by rewrite Hq'.
    - by rewrite HT.
    - by rewrite HP.
    - auto.
    - by apply Forall_insert. }
  clear Hq.
  destruct w as [|permutation|permutation success result messages
                |permutation success result message messages
                |permutation success result message messages
                |permutation success result| |permutation f];
    simpl in Hstep, Hinvw, Ht, Hi, Hheld.
  - (* at the loop head *)
    destruct (Input c) as [|permutation rest] eqn:Hin; simplify_eq/=.
    + apply Hclose; simpl; try done. by rewrite Hin.
    + apply Hclose; simpl; try done.
      * by rewrite <-app_assoc.
      * rewrite Ht. solve_Permutation.
      * by intros [?|?].
  - (* calling the backend *)
    assert (∀ m, m ∈ handed t →
              reported m
              ∧ ∃ p, p ∈ invoked t ++ [permutation]
                     ∧ m ∈ permutation_lines d3d shader options p) as Hh'.
    { intros m [? (p & Hp' & Hm)]%Hh. split; [done|]. exists p. split; [|done].
      apply elem_of_app. by left. }
    destruct (compile_permutation d3d shader options permutation)
      as [f|[[success result] text]] eqn:Hcompile; simplify_eq/=.
    + apply Hclose; simpl; try done.
      * rewrite Ht. solve_Permutation.
      * rewrite Hi. solve_Permutation.
      * by intros [?|?].
      * by right.
    + apply Hclose; simpl; try done.
      * rewrite Ht. solve_Permutation.
      * rewrite Hi. solve_Permutation.
      * by intros [?|?].
      * exists text. split; [by apply compile_computes|done].
  - (* reading a line *)
    destruct Hinvw as (text & Hcomputes & Hlines).
    destruct messages as [|a messages]; cbv beta iota in Hstep.
    + simplify_eq. apply Hclose; simpl; try done; [by intros [?|?]|by exists text].
    + rewrite (diagnostic_lines_getline (String a messages)) in Hlines by done.
      destruct (getline (String a messages)) as [message remaining] eqn:Hgetline.
      cbn [fst snd] in Hlines.
      assert (message ∈ diagnostic_lines text) as Hmessage by (apply Hlines; by left).
      assert (diagnostic_lines remaining ⊆ diagnostic_lines text) as Hremaining.
      { intros l Hl. apply Hlines. by right. }
      destruct (regex_match message warningIgnoreRegex) eqn:Hignore;
        [|destruct (decide (message ∈ Messages c)) as [Hseen|Hfresh]]; simplify_eq;
        (apply Hclose; simpl; try done; [by intros [?|?]|by exists text]).
  - (* the insertion *)
    simplify_eq/=. apply Hclose; simpl; try done. by intros [?|?].
  - (* printing the line *)
    destruct Hinvw as (text & Hcomputes & Hreported & Hmessage & Hremaining).
    simplify_eq/=. apply Hclose; simpl; try done.
    + by intros [?|?].
    + by exists text.
    + by rewrite fmap_app, Hp.
    + intros m [Hm| ->%list_elem_of_singleton]%elem_of_app; [by apply Hh|].
      split; [done|]. exists permutation. split; [apply Hheld; by left|].
      by rewrite (computes_lines _ _ _ _ Hcomputes).
  - (* the end of the iteration *)
    destruct Hinvw as (text & Hcomputes).
    destruct (computes_outcome _ _ _ _ Hcomputes) as (Hsuccess & _).
    assert (Forall (λ p, ∃ success result text,
                      computes d3d shader options p success result text)
              (finished t ++ [permutation])) as Hfin'.
    { apply Forall_app. split; [done|]. apply Forall_singleton. eauto. }
    destruct success; simplify_eq/=.
    + apply Hclose; simpl; try done.
      * rewrite Hi. solve_Permutation.
      * by intros [?|?].
      * rewrite filter_app, filter_cons, decide_True by done.
        apply Forall2_app; [done|]. constructor; [by exists text|constructor].
      * rewrite existsb_app, Hf. simpl. rewrite <-Hsuccess. by rewrite !orb_false_r.
    + apply Hclose; simpl; try done.
      * rewrite Hi. solve_Permutation.
      * by intros [?|?].
      * rewrite filter_app, filter_cons, decide_False, app_nil_r; [done|].
        unfold succeeds. by rewrite <-Hsuccess.
      * rewrite existsb_app. simpl. rewrite <-Hsuccess. by rewrite orb_true_r.
  - done.
  - done.
Qed.

Lemma batch_invariant_step permutations σ σ' :
  invariant permutations σ → step σ σ' → invariant permutations σ'.
Proof.
  intros Hinv [?|[?|?]];
    eauto using batch_invariant_orderly, batch_invariant_race, batch_invariant_overread.
Qed.
(** ** Reachable states *)

(** Induction over the states of a batch. *)
Lemma reachable_ind hardware_concurrency permutations (P : Pool → Prop) :
  P (spawn hardware_concurrency permutations) →
  (∀ σ σ', reachable d3d shader options hardware_concurrency permutations σ →
           P σ → step σ σ' → P σ') →
  ∀ σ, reachable d3d shader options hardware_concurrency permutations σ → P σ.
Proof.
  intros Hspawn Hstep σ Hreach. unfold reachable in *.
  revert σ Hreach. apply rtc_ind_r; eauto.
Qed.

Lemma reachable_invariant hardware_concurrency permutations σ :
  reachable d3d shader options hardware_concurrency permutations σ →
  invariant permutations σ.
Proof.
  revert σ. apply reachable_ind.
  - apply batch_invariant_spawn.
  - intros σ σ' _ IH Hstep. by eapply batch_invariant_step.
Qed.

(** Whatever the step, it is the step of one worker of the pool. *)
Lemma step_worker σ σ' :
  step σ σ' → ∃ i w w', workers σ !! i = Some w ∧ workers σ' = <[i := w']> (workers σ).
Proof.
  intros [[i Hstep]|[Hrace|Hover]].
  - apply pool_step_at_Some in Hstep as (w & w' & Hlook & _ & Hws). eauto.
  - destruct Hrace as (i & w & p & success & result & message & remaining & w' & M'
                       & Hlook & _ & _ & _ & ->). eauto.
  - destruct Hover as (i & p & behind & success & result & messages & Hlook & _ & ->).
    eauto.
Qed.

(** The pool is sized once. *)
Lemma reachable_workers hardware_concurrency permutations σ :
  reachable d3d shader options hardware_concurrency permutations σ →
  length (workers σ) = threadCount hardware_concurrency permutations.
Proof.
  revert σ. apply reachable_ind.
  - simpl. apply length_replicate.
  - intros σ σ' _ IH (i & w & w' & _ & ->)%step_worker.
    by rewrite length_insert.
Qed.

Lemma no_worker_no_step σ σ' : workers σ = [] → ¬ step σ σ'.
Proof.
  intros Hnone (i & w & w' & Hlook & _)%step_worker. by rewrite Hnone in Hlook.
Qed.

Lemma reachable_without_workers hardware_concurrency permutations σ :
  threadCount hardware_concurrency permutations = 0%nat →
  reachable d3d shader options hardware_concurrency permutations σ →
  σ = spawn hardware_concurrency permutations.
Proof.
  intros Hzero. revert σ. apply reachable_ind; [done|].
  intros σ σ' _ -> Hstep.
  exfalso. eapply no_worker_no_step; [|exact Hstep].
  unfold spawn. simpl. by rewrite Hzero.
Qed.

(** In a pool of one worker no call overlaps another. *)
Lemma single_worker_step_kind σ σ' w :
  workers σ = [w] → step σ σ' → orderly σ σ' ∨ overread_step d3d shader options σ σ'.
Proof.
  intros Hone [?|[Hrace|?]]; [by left| |by right].
  destruct Hrace as (i & w0 & p & success & result & message & remaining & w' & M'
                     & Hlook & _ & (j & wj & Hne & Hj & _) & _).
  rewrite Hone in Hlook, Hj.
  destruct i, j; simplify_eq/=.
Qed.

(** The wait is over once every worker has returned, however many there
    are. *)
Lemma returned_joined σ : every_worker_returned σ → joined σ.
Proof.
  unfold joined. intros Hall. destruct (decide _); [done|].
  eapply Forall_impl; [exact Hall|]. by intros w ->.
Qed.

Lemma joined_returned σ :
  (length (workers σ) ≤ MAXIMUM_WAIT_OBJECTS)%nat → joined σ → every_worker_returned σ.
Proof. unfold joined. intros Hle. by rewrite decide_True. Qed.

(** Once the workers have all returned nothing is held back. *)
Lemma returned_nothing_held permutations σ :
  invariant permutations σ → every_worker_returned σ →
  dequeued (trace σ) ≡ₚ invoked (trace σ)
  ∧ invoked (trace σ) ≡ₚ finished (trace σ).
Proof.
  intros [Hq Ht Hi Hr Ho Hf Hw Hfin Hm Hrep] Hjoined.
  rewrite (bind_all_returned taken _ eq_refl Hjoined), app_nil_r in Ht.
  rewrite (bind_all_returned in_progress _ eq_refl Hjoined), app_nil_r in Hi.
  done.
Qed.

(** With a worker in the pool, the queue is empty once they have returned. *)
Lemma returned_drained hardware_concurrency permutations σ :
  (0 < hardware_concurrency)%nat →
  reachable d3d shader options hardware_concurrency permutations σ →
  every_worker_returned σ →
  Input (context σ) = [] ∧ dequeued (trace σ) = permutations.
Proof.
  intros Hhw Hreach Hjoined.
  pose proof (reachable_invariant _ _ _ Hreach) as Hinv.
  pose proof (reachable_workers _ _ _ Hreach) as Hlen.
  destruct permutations as [|permutation permutations].
  - destruct (app_eq_nil _ _ (inv_queue _ _ _ _ _ Hinv)) as [-> ->]. done.
  - assert (Input (context σ) = []) as Hin.
    { apply (inv_returned _ _ _ _ _ Hinv). unfold every_worker_returned in Hjoined.
      destruct (workers σ) as [|w ws] eqn:Hws.
      - unfold threadCount in Hlen. simpl in Hlen. lia.
      - apply Forall_cons in Hjoined as [-> _]. by left. }
    split; [done|]. rewrite <-(inv_queue _ _ _ _ _ Hinv), Hin. by rewrite app_nil_r.
Qed.

(** The state of the pool after [CompileShader] has returned from a wait
    for at least one and at most 64 workers. *)
Lemma returned_batch hardware_concurrency permutations σ output :
  (0 < hardware_concurrency)%nat →
  (threadCount hardware_concurrency permutations ≤ MAXIMUM_WAIT_OBJECTS)%nat →
  CompileShader_returns d3d shader options hardware_concurrency permutations σ output →
  every_worker_returned σ
  ∧ Input (context σ) = []
  ∧ dequeued (trace σ) = permutations
  ∧ invoked (trace σ) ≡ₚ permutations
  ∧ finished (trace σ) ≡ₚ permutations.
Proof.
  intros Hhw Hmax (Hreach & Hjoined & _).
  apply joined_returned in Hjoined; [|by rewrite (reachable_workers _ _ _ Hreach)].
  destruct (returned_drained _ _ _ Hhw Hreach Hjoined) as [Hin Hall].
  destruct (returned_nothing_held _ _ (reachable_invariant _ _ _ Hreach) Hjoined)
    as (Ht & Hi).
  rewrite Hall in Ht. split_and!; try done. by rewrite <-Hi.
Qed.

(** Whatever a worker holds came out of the queue. *)
Lemma held_from_queue permutations σ permutation :
  invariant permutations σ → permutation ∈ invoked (trace σ) → permutation ∈ permutations.
Proof.
  intros Hinv Hin.
  rewrite <-(inv_queue _ _ _ _ _ Hinv), elem_of_app. left.
  rewrite (inv_taken _ _ _ _ _ Hinv), elem_of_app. by left.
Qed.

Lemma taken_from_queue permutations σ permutation :
  invariant permutations σ → Compiling permutation ∈ workers σ → permutation ∈ permutations.
Proof.
  intros Hinv Hin.
  rewrite <-(inv_queue _ _ _ _ _ Hinv), elem_of_app. left.
  rewrite (inv_taken _ _ _ _ _ Hinv), elem_of_app. right.
  apply list_elem_of_bind. exists (Compiling permutation). split; [by left|done].
Qed.

(** ** Runs in which every call goes through *)

Lemma orderly_steps σ σ' : rtc orderly σ σ' → rtc step σ σ'.
Proof. apply rtc_subrel. intros ???. by left. Qed.

Lemma worker_step_budget w c t w' c' t' :
  worker_step d3d shader options w c t = Some (w', c', t') →
  (worker_budget d3d shader options w'
   + sum_list_with (λ p, S (worker_budget d3d shader options (Compiling p))) (Input c')
   < worker_budget d3d shader options w
     + sum_list_with (λ p, S (worker_budget d3d shader options (Compiling p))) (Input c))%nat.
Proof.
  intros Hstep.
  destruct w as [|permutation|permutation success result messages
                |permutation success result message messages
                |permutation success result message messages
                |permutation success result| |permutation f];
    simpl in Hstep.
  - destruct (Input c) as [|permutation rest] eqn:Hin; simplify_eq/=;
      rewrite ?Hin; simpl; lia.
  - destruct (compile_permutation d3d shader options permutation)
      as [f|[[success result] text]] eqn:Hcompile; simplify_eq;
      cbn [worker_budget]; rewrite ?Hcompile; lia.
  - destruct messages as [|a messages]; cbv beta iota in Hstep.
    + simplify_eq/=. lia.
    + pose proof (getline_shorter (String a messages) ltac:(done)) as Hshort.
      destruct (getline (String a messages)) as [message remaining].
      simpl in Hshort.
      destruct (regex_match message warningIgnoreRegex);
        [|destruct (decide (message ∈ Messages c))]; simplify_eq; simpl in *; lia.
  - simplify_eq/=. lia.
  - simplify_eq/=. lia.
  - destruct success; simplify_eq/=; lia.
  - done.
  - done.
Qed.

Lemma pool_step_budget σ σ' :
  orderly σ σ' →
  (pool_budget d3d shader options σ' < pool_budget d3d shader options σ)%nat.
Proof.
  intros [i Hstep].
  apply pool_step_at_Some in Hstep as (w & w' & Hlook & Hstep & Hws).
  apply worker_step_budget in Hstep.
  unfold pool_budget. rewrite Hws.
  pose proof (sum_list_with_insert (worker_budget d3d shader options) _ i w w' Hlook).
  lia.
Qed.

Lemma first_running_Some ws i :
  first_running ws = Some i → ∃ w, ws !! i = Some w ∧ has_left w = false.
Proof.
  revert i. induction ws as [|w ws IH]; intros i; [done|].
  destruct w; simpl; try (intros [= <-]; eauto; fail).
  - destruct (first_running ws) as [j|]; [|done]. intros [= <-]. by apply IH.
  - destruct (first_running ws) as [j|]; [|done]. intros [= <-]. by apply IH.
Qed.

Lemma first_running_None ws : first_running ws = None → Forall (λ w, has_left w = true) ws.
Proof.
  induction ws as [|w ws IH]; [constructor|].
  destruct w; simpl; try done;
    (destruct (first_running ws); [done|]; intros _; constructor; auto).
Qed.

(** A worker still inside [CompileWorker] can step. *)
Lemma running_worker_steps w c t :
  has_left w = false → is_Some (worker_step d3d shader options w c t).
Proof.
  destruct w; simpl; try done; intros _; repeat case_match; eauto.
Qed.

Lemma first_running_steps σ i :
  first_running (workers σ) = Some i → ∃ σ', step_at i σ = Some σ'.
Proof.
  intros (w & Hlook & Hrun)%first_running_Some.
  destruct (running_worker_steps w (context σ) (trace σ) Hrun) as [[[w' c'] t'] Hstep].
  unfold pool_step_at. rewrite Hlook. simpl. rewrite Hstep. simpl. eauto.
Qed.

Lemma run_pool_orderly fuel σ : rtc orderly σ (run_pool d3d shader options fuel σ).
Proof.
  revert σ. induction fuel as [|fuel IH]; intros σ; simpl; [done|].
  destruct (first_running (workers σ)) as [i|] eqn:Hfirst; [|done].
  destruct (first_running_steps σ i Hfirst) as [σ' Hstep].
  rewrite Hstep. simpl. eapply rtc_l; [by exists i|]. apply IH.
Qed.

Lemma run_schedule_orderly schedule σ :
  rtc orderly σ (run_schedule d3d shader options schedule σ).
Proof.
  revert σ. induction schedule as [|i schedule IH]; intros σ; simpl; [done|].
  destruct (step_at i σ) as [σ'|] eqn:Hstep; simpl; [|apply IH].
  eapply rtc_l; [by exists i|]. apply IH.
Qed.

Lemma run_pool_steps fuel σ : rtc step σ (run_pool d3d shader options fuel σ).
Proof. apply orderly_steps, run_pool_orderly. Qed.

Lemma run_schedule_steps schedule σ :
  rtc step σ (run_schedule d3d shader options schedule σ).
Proof. apply orderly_steps, run_schedule_orderly. Qed.

(** Fuel up to the budget runs every worker out of [CompileWorker]. *)
Lemma run_pool_completes fuel σ :
  (pool_budget d3d shader options σ ≤ fuel)%nat →
  first_running (workers (run_pool d3d shader options fuel σ)) = None.
Proof.
  revert σ. induction fuel as [|fuel IH]; intros σ Hfuel; simpl.
  - destruct (first_running (workers σ)) as [i|] eqn:Hfirst; [|done].
    destruct (first_running_steps σ i Hfirst) as [σ' Hstep].
    assert (orderly σ σ') as Hs by (by exists i). apply pool_step_budget in Hs. lia.
  - destruct (first_running (workers σ)) as [i|] eqn:Hfirst; [|done].
    destruct (first_running_steps σ i Hfirst) as [σ' Hstep].
    rewrite Hstep. simpl. apply IH.
    assert (orderly σ σ') as Hs by (by exists i). apply pool_step_budget in Hs. lia.
Qed.

(** When no permutation makes a worker fault, no worker faults in a run in
    which every call goes through. *)
Lemma orderly_no_fault hardware_concurrency permutations σ :
  (∀ p, p ∈ permutations → fault_free d3d shader options p) →
  rtc orderly (spawn hardware_concurrency permutations) σ →
  ∀ permutation f, Faulted permutation f ∉ workers σ.
Proof.
  intros Hfree Hrun. revert σ Hrun.
  apply (rtc_ind_r (λ σ, ∀ permutation f, Faulted permutation f ∉ workers σ)).
  - intros p f [? _]%elem_of_replicate. done.
  - intros σ σ' Hrun [i Hstep] IH p f Hin.
    assert (invariant permutations σ) as Hinv.
    { apply (reachable_invariant hardware_concurrency). by apply orderly_steps. }
    apply pool_step_at_Some in Hstep as (w & w' & Hlook & Hstep & Hws).
    rewrite Hws in Hin. apply elem_of_insert_worker in Hin as [<-|Hin]; [|by eapply IH].
    destruct w; simpl in Hstep; repeat case_match; simplify_eq.
    eapply Hfree; [|done].
    eapply taken_from_queue; [done|]. by eapply list_elem_of_lookup_2.
Qed.

(** When no permutation makes a worker fault, the batch can run to the
    point where every worker has returned and [CompileShader] returns. *)
Lemma batch_returns hardware_concurrency permutations :
  (∀ p, p ∈ permutations → fault_free d3d shader options p) →
  ∃ σ, every_worker_returned σ
       ∧ CompileShader_returns d3d shader options hardware_concurrency permutations
           σ (return_value σ).
Proof.
  intros Hfree.
  set (σ0 := spawn hardware_concurrency permutations).
  set (σ := run_pool d3d shader options (pool_budget d3d shader options σ0) σ0).
  assert (rtc orderly σ0 σ) as Hrun by apply run_pool_orderly.
  assert (every_worker_returned σ) as Hall.
  { pose proof (run_pool_completes (pool_budget d3d shader options σ0) σ0 ltac:(done))
      as Hnone.
    apply first_running_None in Hnone. fold σ in Hnone.
    apply Forall_forall. intros w Hw.
    pose proof (proj1 (Forall_forall _ _) Hnone w Hw) as Hleft.
    destruct w; simpl in Hleft; try done.
    by eapply orderly_no_fault in Hw. }
  exists σ. split; [done|]. split; [by apply orderly_steps|].
  split; [by apply returned_joined|done].
Qed.

(** ** Calls that overlap, and workers that do not come back *)

Lemma race_outcome_step second i j M' σ :
  overlapped_by i j σ = true →
  step σ (race_outcome second i M' σ).
Proof.
  unfold overlapped_by. rewrite !andb_true_iff, !bool_decide_eq_true.
  intros [[Hne [call Hi]] [call' Hj]].
  right. left. unfold race_outcome. rewrite Hi.
  destruct (workers σ !! i) as [w|] eqn:Hw; [|done].
  destruct (workers σ !! j) as [w'|] eqn:Hw'; [|done].
  simpl in Hi, Hj.
  destruct call as [[[[permutation success] result] message] remaining].
  eexists i, w, permutation, success, result, message, remaining, _, M'.
  split; [done|]. split; [done|]. split; [by exists j, w'; rewrite Hj|].
  split; [|reflexivity].
  destruct second as [[|]|]; auto.
Qed.

(** A worker that has brought the process down stays where it is. *)
Lemma crashed_stays σ σ' i w :
  step σ σ' → workers σ !! i = Some w → crashed w = true → workers σ' !! i = Some w.
Proof.
  intros Hstep Hlook Hcrashed.
  assert (∃ j wj w', workers σ !! j = Some wj ∧ crashed wj = false
                     ∧ workers σ' = <[j := w']> (workers σ))
    as (j & wj & w' & Hj & Halive & ->).
  { destruct Hstep as [[j Hstep]|[Hrace|Hover]].
    - apply pool_step_at_Some in Hstep as (wj & w' & Hj & Hstep & Hws).
      exists j, wj, w'. split; [done|]. split; [|done].
      by destruct wj as [| | | | | | |? []].
    - destruct Hrace as (j & wj & p & success & result & message & remaining & w' & M'
                         & Hj & Hcall & _ & _ & ->).
      exists j, wj, w'. split; [done|]. split; [|done].
      by destruct wj as [| | | | | | |? []].
    - destruct Hover as (j & p & behind & success & result & messages & Hj & _ & ->).
      eauto 6. }
  rewrite list_lookup_insert_ne; [done|]. intros ->. congruence.
Qed.

Lemma crashed_for_good σ σ' i w :
  rtc step σ σ' → workers σ !! i = Some w → crashed w = true → workers σ' !! i = Some w.
Proof. induction 1; eauto using crashed_stays. Qed.

(** With at most 64 workers, [CompileShader] does not return once a worker
    has brought the process down. *)
Lemma no_return_after_crash hardware_concurrency permutations σ σ' i w output :
  (threadCount hardware_concurrency permutations ≤ MAXIMUM_WAIT_OBJECTS)%nat →
  reachable d3d shader options hardware_concurrency permutations σ →
  workers σ !! i = Some w → crashed w = true →
  rtc step σ σ' →
  ¬ CompileShader_returns d3d shader options hardware_concurrency permutations σ' output.
Proof.
  intros Hmax Hreach Hlook Hcrashed Hrun (Hreach' & Hjoined & _).
  apply joined_returned in Hjoined; [|by rewrite (reachable_workers _ _ _ Hreach')].
  pose proof (crashed_for_good _ _ _ _ Hrun Hlook Hcrashed) as Hlook'.
  pose proof (Forall_lookup_1 _ _ _ _ Hjoined Hlook') as ->. done.
Qed.

Lemma overread_outcome_steps behind i σ :
  rtc step σ (overread_outcome d3d shader options behind i σ).
Proof.
  unfold overread_outcome.
  destruct (workers σ !! i) as [[| | | | | | |permutation []]|] eqn:Hlook;
    try apply rtc_refl.
  destruct (compile_permutation _ _ _ _) as [f|[[success result] messages]] eqn:Hcompile;
    [apply rtc_refl|].
  apply rtc_once. right. right. exists i, permutation, behind, success, result, messages.
  done.
Qed.

(** ** The batch as a whole *)

Lemma Forall2_keys (order : list OptionPermutation) (output : list CompiledShader) :
  Forall2 (λ p r, ShaderKey r = Key p) order output →
  ShaderKey <$> output = Key <$> order.
Proof.
  induction 1 as [|p r order output Hkey _ IH]; [done|].
  by rewrite !fmap_cons, Hkey, IH.
Qed.

Lemma Forall2_impl_elem {A B} (P Q : A → B → Prop) (l : list A) (k : list B) :
  Forall2 P l k → (∀ x y, x ∈ l → P x y → Q x y) → Forall2 Q l k.
Proof.
  induction 1 as [|x y l k HP _ IH]; intros HPQ; constructor.
  - apply HPQ; [by left|done].
  - apply IH. intros x' y' Hx'. apply HPQ. by right.
Qed.

Lemma filter_succeeds_all (l : list OptionPermutation) :
  (∀ p, p ∈ l → hr_succeeded (invoke_backend d3d shader options p) = true) →
  filter (succeeds d3d shader options) l = l.
Proof.
  induction l as [|p l IH]; intros Hall; [done|].
  rewrite filter_cons, decide_True by (apply Hall; by left).
  f_equal. apply IH. intros q Hq. apply Hall. by right.
Qed.

(** The keys of [Output] are those of the finished permutations the backend
    compiled, in the order the iterations ended. *)
Lemma output_keys permutations σ :
  invariant permutations σ →
  ShaderKey <$> Output (context σ)
  = Key <$> filter (succeeds d3d shader options) (finished (trace σ)).
Proof.
  intros Hinv. apply Forall2_keys.
  eapply Forall2_impl; [apply (inv_output _ _ _ _ _ Hinv)|].
  intros p r [text (_ & Hkey & _)%computes_outcome]. done.
Qed.

(** An iteration for a permutation the backend leaves without diagnostics
    does not come to its end. *)
Lemma finished_has_diagnostics permutations σ permutation :
  invariant permutations σ → permutation ∈ finished (trace σ) →
  is_Some (errors_blob (invoke_backend d3d shader options permutation)).
Proof.
  intros Hinv Hin.
  pose proof (proj1 (Forall_forall _ _) (inv_finished _ _ _ _ _ Hinv) _ Hin)
    as (success & result & text & (_ & _ & errors & Herrors & _)%computes_outcome).
  eauto.
Qed.

(** With at least one and at most 64 workers in the pool, [CompileShader]
    does not return from a batch with a permutation the backend leaves
    without diagnostics. *)
Lemma no_return_without_diagnostics hardware_concurrency permutations permutation σ output :
  (0 < hardware_concurrency)%nat →
  (threadCount hardware_concurrency permutations ≤ MAXIMUM_WAIT_OBJECTS)%nat →
  permutation ∈ permutations →
  errors_blob (invoke_backend d3d shader options permutation) = None →
  ¬ CompileShader_returns d3d shader options hardware_concurrency permutations σ output.
Proof.
  intros Hhw Hmax Hin Hnone Hret.
  destruct (returned_batch _ _ _ _ Hhw Hmax Hret) as (_ & _ & _ & _ & Hfin).
  destruct Hret as (Hreach%reachable_invariant & _).
  rewrite <-Hfin in Hin.
  destruct (finished_has_diagnostics _ _ _ Hreach Hin) as [errors Herrors]. congruence.
Qed.

(** C1, as the code has it.  When the pool has at most 64 workers, so that
    the wait covers them all, whatever [CompileShader] returns from a batch
    with a permutation the backend fails on is the empty sequence, under every
    interleaving and however many other permutations were compiled; and it
    can return, after the batch has run to its end, when no permutation makes
    a worker fault. *)
Theorem all_or_nothing hardware_concurrency permutations failing :
  (threadCount hardware_concurrency permutations ≤ MAXIMUM_WAIT_OBJECTS)%nat →
  failing ∈ permutations →
  hr_succeeded (invoke_backend d3d shader options failing) = false →
  (∀ σ output,
     CompileShader_returns d3d shader options hardware_concurrency permutations σ output →
     output = [])
  ∧ ((∀ p, p ∈ permutations → fault_free d3d shader options p) →
     ∃ σ, CompileShader_returns d3d shader options hardware_concurrency permutations σ []).
Proof.
  intros Hmax Hin Hfails.
  assert (∀ σ output,
    CompileShader_returns d3d shader options hardware_concurrency permutations σ output →
    output = []) as Hempty.
  { intros σ output Hret. pose proof Hret as (Hreach & Hjoined & ->).
    destruct hardware_concurrency as [|hw].
    - by rewrite (reachable_without_workers 0 permutations σ eq_refl Hreach).
    - destruct (returned_batch (S hw) permutations σ _ ltac:(lia) Hmax Hret)
        as (_ & _ & _ & _ & Hfin).
      pose proof (reachable_invariant _ _ _ Hreach) as Hinv.
      unfold return_value. rewrite (inv_failed _ _ _ _ _ Hinv).
      replace (existsb _ _) with true; [done|].
      symmetry. apply existsb_exists. exists failing. split; [|by rewrite Hfails].
      apply list_elem_of_In. by rewrite Hfin. }
  split; [done|].
  intros Hfree.
  destruct (batch_returns hardware_concurrency permutations Hfree) as (σ & _ & Hret).
  exists σ. by rewrite <-(Hempty σ _ Hret).
Qed.

(** C2, as the code has it.  With at least one hardware thread, at most 64
    workers, so that the wait covers them all, and a backend that compiles
    every permutation: whenever [CompileShader] returns, what it returns
    holds, for the permutations in the order their iterations ended, a result
    of each one under its key, so as many results as permutations and the same
    keys up to order.  When besides no permutation makes a worker fault,
    [CompileShader] can return, and the results are those an iteration
    saves. *)
Theorem zero_failure_completeness hardware_concurrency permutations :
  (0 < hardware_concurrency)%nat →
  (threadCount hardware_concurrency permutations ≤ MAXIMUM_WAIT_OBJECTS)%nat →
  (∀ p, p ∈ permutations → hr_succeeded (invoke_backend d3d shader options p) = true) →
  (∀ σ output,
     CompileShader_returns d3d shader options hardware_concurrency permutations σ output →
     finished (trace σ) ≡ₚ permutations
     ∧ Forall2 (λ p r, ShaderKey r = Key p
                       ∧ ∃ text, computes d3d shader options p true r text)
         (finished (trace σ)) output
     ∧ length output = length permutations
     ∧ ShaderKey <$> output ≡ₚ Key <$> permutations)
  ∧ ((∀ p, p ∈ permutations → fault_free d3d shader options p) →
     (∃ σ output,
        CompileShader_returns d3d shader options hardware_concurrency permutations σ output)
     ∧ ∀ σ output,
         CompileShader_returns d3d shader options hardware_concurrency permutations σ output →
         Forall2 (λ p r, saved_result d3d shader options p = Some r)
           (finished (trace σ)) output).
Proof.
  intros Hhw Hmax Hok.
  assert (∀ σ output,
    CompileShader_returns d3d shader options hardware_concurrency permutations σ output →
    finished (trace σ) ≡ₚ permutations
    ∧ Forall2 (λ p r, ShaderKey r = Key p
                      ∧ ∃ text, computes d3d shader options p true r text)
        (finished (trace σ)) output) as Hall.
  { intros σ output Hret. pose proof Hret as (Hreach & Hjoined & ->).
    destruct (returned_batch _ _ _ _ Hhw Hmax Hret) as (_ & _ & _ & _ & Hfin).
    pose proof (reachable_invariant _ _ _ Hreach) as Hinv.
    split; [done|].
    assert (∀ p, p ∈ finished (trace σ) →
                 hr_succeeded (invoke_backend d3d shader options p) = true) as Hok'.
    { intros p Hp. apply Hok. by rewrite <-Hfin. }
    assert (IsFailed (context σ) = false) as Hnotfailed.
    { rewrite (inv_failed _ _ _ _ _ Hinv). apply not_true_is_false.
      intros (p & Hp%list_elem_of_In & Hf)%existsb_exists.
      rewrite (Hok' p Hp) in Hf. done. }
    unfold return_value. rewrite Hnotfailed.
    pose proof (inv_output _ _ _ _ _ Hinv) as Hout.
    rewrite (filter_succeeds_all _ Hok') in Hout.
    eapply Forall2_impl; [exact Hout|].
    intros p r [text Hc]. split; [|by eauto].
    by destruct (computes_outcome _ _ _ _ Hc) as (_ & Hkey & _). }
  split.
  - intros σ output Hret. destruct (Hall σ output Hret) as [Hfin Hout].
    split; [done|]. split; [done|]. split.
    + by rewrite <-(Forall2_length _ _ _ Hout), Hfin.
    + rewrite (Forall2_keys (finished (trace σ))); [by rewrite Hfin|].
      eapply Forall2_impl; [exact Hout|]. by intros p r [? _].
  - intros Hfree. split.
    { destruct (batch_returns hardware_concurrency permutations Hfree) as (σ & _ & Hret).
      eauto. }
    intros σ output Hret. destruct (Hall σ output Hret) as [Hfin Hout].
    eapply Forall2_impl_elem; [exact Hout|].
    intros p r Hp [_ [text Hc]]. simpl.
    assert (fault_free d3d shader options p) as Hp' by (apply Hfree; by rewrite <-Hfin).
    unfold saved_result.
    destruct (compile_permutation d3d shader options p) as [f|outcome] eqn:Hcompile;
      [by destruct (Hp' f)|].
    by rewrite (computes_saved _ _ _ _ _ Hcompile Hc).
Qed.

(** ** What has happened when [CompileShader] returns *)

Lemma existsb_Permutation {A} (f : A → bool) (l l' : list A) :
  l ≡ₚ l' → existsb f l = existsb f l'.
Proof.
  induction 1 as [|x l l' _ IH|x y l|l l' l'' _ IH _ IH']; simpl.
  - done.
  - by rewrite IH.
  - by destruct (f x), (f y).
  - by rewrite IH.
Qed.

(** [IsFailed] and [Output] after a wait for at least one and at most 64
    workers. *)
Lemma returned_context hardware_concurrency permutations σ output :
  (0 < hardware_concurrency)%nat →
  (threadCount hardware_concurrency permutations ≤ MAXIMUM_WAIT_OBJECTS)%nat →
  CompileShader_returns d3d shader options hardware_concurrency permutations σ output →
  finished (trace σ) ≡ₚ permutations
  ∧ IsFailed (context σ)
    = existsb (λ p, negb (hr_succeeded (invoke_backend d3d shader options p))) permutations
  ∧ ShaderKey <$> Output (context σ)
    ≡ₚ Key <$> filter (succeeds d3d shader options) permutations.
Proof.
  intros Hhw Hmax Hret.
  destruct (returned_batch _ _ _ _ Hhw Hmax Hret) as (_ & _ & _ & _ & Hfin).
  destruct Hret as (Hinv%reachable_invariant & _).
  split; [done|]. split.
  - rewrite (inv_failed _ _ _ _ _ Hinv). by apply existsb_Permutation.
  - rewrite (output_keys _ _ Hinv). by rewrite Hfin.
Qed.

(** C8, as the code has it.  Throughout a batch the work items that have
    left the queue, followed by those still in it, are the permutations in
    their order; each one that has left it has reached the backend once or is
    about to, and each one that has reached it has ended its iteration once or
    is in it.  What the backend said is what the context holds: [IsFailed] is
    set exactly when [D3DCompileFromFile] has failed on a permutation whose
    iteration has ended, and [Output] holds one result for each one it has
    compiled.  A worker steps into [Returned] from the loop head on an empty
    queue and in no other way; at the loop head it takes the next item
    whatever [IsFailed] says, and after a failed compile it is back at the
    loop head.  So a worker that has returned has left the queue empty, and
    after a wait for at least one and at most 64 workers every permutation has
    left the queue, reached the backend and ended its iteration exactly
    once. *)
Theorem queue_drained_exactly_once hardware_concurrency permutations σ :
  reachable d3d shader options hardware_concurrency permutations σ →
  dequeued (trace σ) ++ Input (context σ) = permutations
  ∧ dequeued (trace σ) ≡ₚ invoked (trace σ) ++ (workers σ ≫= taken)
  ∧ invoked (trace σ) ≡ₚ finished (trace σ) ++ (workers σ ≫= in_progress)
  ∧ IsFailed (context σ)
    = existsb (λ p, negb (hr_succeeded (backend_call d3d shader options p)))
        (finished (trace σ))
  ∧ ShaderKey <$> Output (context σ)
    = Key <$> filter (λ p, hr_succeeded (backend_call d3d shader options p) = true)
                (finished (trace σ))
  ∧ (∀ w c t w' c' t',
       worker_step d3d shader options w c t = Some (w', c', t') →
       w' = Returned → w = AtLoopHead ∧ Input c = [])
  ∧ (∀ c t permutation rest,
       Input c = permutation :: rest →
       ∃ c' t', worker_step d3d shader options AtLoopHead c t
                = Some (Compiling permutation, c', t')
                ∧ Input c' = rest ∧ IsFailed c' = IsFailed c)
  ∧ (∀ c t permutation result,
       ∃ c' t', worker_step d3d shader options (Saving permutation false result) c t
                = Some (AtLoopHead, c', t')
                ∧ Input c' = Input c ∧ IsFailed c' = true)
  ∧ (Returned ∈ workers σ → Input (context σ) = [])
  ∧ ((0 < hardware_concurrency)%nat →
     (threadCount hardware_concurrency permutations ≤ MAXIMUM_WAIT_OBJECTS)%nat →
     joined σ →
     dequeued (trace σ) = permutations
     ∧ invoked (trace σ) ≡ₚ permutations
     ∧ finished (trace σ) ≡ₚ permutations
     ∧ IsFailed (context σ)
       = existsb (λ p, negb (hr_succeeded (backend_call d3d shader options p))) permutations
     ∧ ShaderKey <$> Output (context σ)
       ≡ₚ Key <$> filter (λ p, hr_succeeded (backend_call d3d shader options p) = true)
                    permutations).
Proof.
  intros Hreach. pose proof (reachable_invariant _ _ _ Hreach) as Hinv.
  split_and!.
  - apply (inv_queue _ _ _ _ _ Hinv).
  - apply (inv_taken _ _ _ _ _ Hinv).
  - apply (inv_invoked _ _ _ _ _ Hinv).
  - apply (inv_failed _ _ _ _ _ Hinv).
  - apply (output_keys _ _ Hinv).
  - intros w c t w' c' t' Hstep ->.
    destruct w; simpl in Hstep; repeat case_match; simplify_eq; done.
  - intros c t permutation rest Hin. simpl. rewrite Hin. eauto.
  - intros c t permutation result. simpl. eauto.
  - apply (inv_returned _ _ _ _ _ Hinv).
  - intros Hhw Hmax Hjoined.
    assert (CompileShader_returns d3d shader options hardware_concurrency permutations
              σ (return_value σ)) as Hret by done.
    destruct (returned_batch _ _ _ _ Hhw Hmax Hret) as (_ & _ & Hd & Hi & Hf).
    destruct (returned_context _ _ _ _ Hhw Hmax Hret) as (_ & Hfailed & Hout).
    done.
Qed.

(** C4, as the code has it.  The pool has min(C, N) workers from the start
    to the end of the batch, never more than N, and at least one when both C
    and N are positive.  Without permutations there is no worker, the only
    state of the batch is the initial one, and [CompileShader] returns the
    empty sequence with [IsFailed] unset. *)
Theorem worker_pool_sizing hardware_concurrency permutations :
  length (workers (spawn hardware_concurrency permutations))
  = Nat.min hardware_concurrency (length permutations)
  ∧ (∀ σ, reachable d3d shader options hardware_concurrency permutations σ →
          length (workers σ) = Nat.min hardware_concurrency (length permutations))
  ∧ (length (workers (spawn hardware_concurrency permutations)) ≤ length permutations)%nat
  ∧ ((0 < hardware_concurrency)%nat → (0 < length permutations)%nat →
     (0 < length (workers (spawn hardware_concurrency permutations)))%nat)
  ∧ workers (spawn hardware_concurrency []) = []
  ∧ CompileShader_returns d3d shader options hardware_concurrency []
      (spawn hardware_concurrency []) []
  ∧ (∀ σ output,
       CompileShader_returns d3d shader options hardware_concurrency [] σ output →
       σ = spawn hardware_concurrency [] ∧ output = [] ∧ IsFailed (context σ) = false).
Proof.
  assert (length (workers (spawn hardware_concurrency permutations))
          = Nat.min hardware_concurrency (length permutations)) as Hlen.
  { simpl. apply length_replicate. }
  assert (threadCount hardware_concurrency [] = 0%nat) as Hzero.
  { unfold threadCount. simpl. lia. }
  split_and!.
  - done.
  - intros σ Hreach. by rewrite (reachable_workers _ _ _ Hreach).
  - rewrite Hlen. lia.
  - rewrite Hlen. lia.
  - unfold spawn. simpl. by rewrite Hzero.
  - split; [apply rtc_refl|]. split; [|done].
    apply returned_joined. unfold every_worker_returned, spawn. simpl. by rewrite Hzero.
  - intros σ output (Hreach & _ & ->).
    by rewrite (reachable_without_workers _ _ _ Hzero Hreach).
Qed.

(** ** The lines of the diagnostics *)

Lemma lines_recorded_mono (M M' : gset string) w :
  M ⊆ M' → lines_recorded d3d shader options M w → lines_recorded d3d shader options M' w.
Proof.
  intros Hsub. destruct w; simpl; try done; intros Hw l Hl Hrep;
    specialize (Hw l Hl Hrep); set_solver.
Qed.

(** A step whose call on [Messages], if it makes one, no other call
    overlaps keeps the record of the lines. *)
Lemma log_invariant_orderly permutations σ σ' :
  invariant permutations σ → log_invariant d3d shader options σ → orderly σ σ' →
  log_invariant d3d shader options σ'.
Proof.
  intros Hinv [Hlines Hfin Hmsgs] [i Hstep].
  apply pool_step_at_Some in Hstep as (w & w' & Hlook & Hstep & Hws).
  pose proof (Forall_lookup_1 _ _ _ _ Hlines Hlook) as Hw.
  destruct (bind_insert_worker about_to_print _ i w w' Hlook) as (A & HA & HA').
  setoid_rewrite HA in Hmsgs.
  assert (Messages (context σ) ⊆ Messages (context σ')
          ∧ lines_recorded d3d shader options (Messages (context σ')) w'
          ∧ (∀ p l, p ∈ finished (trace σ') →
                    l ∈ permutation_lines d3d shader options p → reported l →
                    l ∈ Messages (context σ'))
          ∧ (∀ m, m ∈ Messages (context σ')
                  ↔ m ∈ handed (trace σ') ++ about_to_print w' ++ A))
    as (Hsub & Hw' & Hfin' & Hmsgs').
  2:{ split; [|done|].
      - rewrite Hws. apply Forall_insert; [|done].
        eapply Forall_impl; [exact Hlines|]. intros ?. by apply lines_recorded_mono.
      - intros m. rewrite Hws. setoid_rewrite HA'. apply Hmsgs'. }
  destruct σ as [c t ws], σ' as [c' t' ws']. simpl in *. clear Hws Hlines Hinv Hlook HA HA'.
  destruct w as [|permutation|permutation success result messages
                |permutation success result message messages
                |permutation success result message messages
                |permutation success result| |permutation f];
    simpl in Hstep, Hw, Hmsgs.
  - destruct (Input c); simplify_eq/=; done.
  - destruct (compile_permutation d3d shader options permutation)
      as [f|[[success result] text]] eqn:Hcompile; simplify_eq/=; [done|].
    split_and!; try done. intros l Hl _. right.
    by rewrite <-(computes_lines _ _ _ _ (compile_computes _ _ _ _ Hcompile)).
  - destruct messages as [|a messages]; cbv beta iota in Hstep.
    + simplify_eq/=. split_and!; try done. intros l Hl Hrep.
      destruct (Hw l Hl Hrep) as [?|Hin]; [done|].
      rewrite diagnostic_lines_empty in Hin. by apply elem_of_nil in Hin.
    + rewrite (diagnostic_lines_getline (String a messages)) in Hw by done.
      destruct (getline (String a messages)) as [message remaining]. cbn [fst snd] in Hw.
      destruct (regex_match message warningIgnoreRegex) eqn:Hre;
        [|destruct (decide (message ∈ Messages c)) as [Hseen|Hnew]]; simplify_eq/=;
        split_and!; try done; intros l Hl Hrep;
        destruct (Hw l Hl Hrep) as [?|[->|?]%elem_of_cons]; auto.
      unfold reported in Hrep. congruence.
  - simplify_eq/=. split_and!.
    + apply union_subseteq_r.
    + intros l Hl Hrep. destruct (Hw l Hl Hrep) as [[?| ->]|?]; [left|left|by right];
        set_solver.
    + intros p l Hp Hl Hrep. apply elem_of_union. right. by eapply Hfin.
    + intros m. rewrite elem_of_union, Hmsgs. set_solver.
  - simplify_eq/=. split_and!; try done.
    intros m. rewrite Hmsgs. rewrite !elem_of_app. set_solver.
  - destruct success; simplify_eq/=; (split_and!; try done);
      intros p l [Hp| ->%list_elem_of_singleton]%elem_of_app Hl Hrep; eauto.
  - done.
  - done.
Qed.

Lemma log_invariant_overread σ σ' :
  log_invariant d3d shader options σ → overread_step d3d shader options σ σ' →
  log_invariant d3d shader options σ'.
Proof.
  intros [Hlines Hfin Hmsgs]
    (i & p & behind & success & result & messages & Hlook & Hcompile & ->).
  destruct (bind_insert_worker about_to_print _ i _
              (ReadingMessages p success result messages) Hlook) as (A & HA & HA').
  split; cbn [context trace workers]; [|done|].
  - apply Forall_insert; [done|]. simpl. intros l Hl _. right.
    by rewrite <-(computes_lines p success result messages) by (by exists behind).
  - intros m. rewrite (Hmsgs m). setoid_rewrite HA. setoid_rewrite HA'. done.
Qed.

Lemma log_invariant_spawn hardware_concurrency permutations :
  log_invariant d3d shader options (spawn hardware_concurrency permutations).
Proof.
  split; unfold spawn; cbn [context trace workers finished handed Messages].
  - apply Forall_forall. by intros w [-> _]%elem_of_replicate.
  - by intros p l ?%elem_of_nil.
  - intros m. rewrite bind_replicate_nil by done. set_solver.
Qed.

(** *** One worker *)

Lemma single_worker_after σ σ' w'' :
  step σ σ' → workers σ' = [w''] →
  ∃ w, workers σ = [w]
       ∧ (orderly σ σ' ∨ overread_step d3d shader options σ σ').
Proof.
  intros Hstep Hws'.
  destruct (step_worker _ _ Hstep) as (i & w & w' & Hlook & Hws).
  assert (workers σ = [w]) as Hone.
  { rewrite Hws in Hws'. destruct (workers σ) as [|w0 [|w1 ws]]; try done.
    - destruct i; simplify_eq/=; done.
    - destruct i as [|[|i]]; simplify_eq/=. }
  exists w. split; [done|]. by eapply single_worker_step_kind.
Qed.

Lemma reachable_log_single hardware_concurrency permutations σ :
  threadCount hardware_concurrency permutations = 1%nat →
  reachable d3d shader options hardware_concurrency permutations σ →
  log_invariant d3d shader options σ.
Proof.
  intros Hone. revert σ. apply reachable_ind; [apply log_invariant_spawn|].
  intros σ σ' Hreach IH Hstep.
  pose proof (reachable_workers _ _ _ Hreach) as Hlen. rewrite Hone in Hlen.
  destruct (workers σ) as [|w [|? ?]] eqn:Hws; try done.
  destruct (single_worker_step_kind _ _ _ Hws Hstep) as [?|?].
  - eapply log_invariant_orderly; eauto using reachable_invariant.
  - by eapply log_invariant_overread.
Qed.

(** In a pool of one worker no step lies between another worker's lookup
    and insertion. *)
Lemma single_worker_step σ σ' :
  log_invariant d3d shader options σ → single_worker_invariant σ → step σ σ' →
  single_worker_invariant σ'.
Proof.
  intros Hlog Hsingle Hstep w'' Hws'.
  destruct (single_worker_after _ _ _ Hstep Hws') as (w & Hone & [[i Horderly]|Hover]).
  - apply pool_step_at_Some in Horderly as (w0 & w' & Hlook & Hworker & Hws).
    rewrite Hone in Hlook, Hws. destruct i; simplify_eq/=.
    destruct (Hsingle w0 Hone) as [Hnodup Hfresh].
    pose proof (log_messages _ _ _ _ Hlog) as Hm. rewrite Hone in Hm.
    cbn [mbind list_bind] in Hm. rewrite app_nil_r in Hm.
    destruct σ as [c t ws], σ' as [c' t' ws']. simpl in *. clear Hsingle Hlog Hstep.
    destruct w0 as [|permutation|permutation success result messages
                   |permutation success result message messages
                   |permutation success result message messages
                   |permutation success result| |permutation f];
      simpl in Hworker, Hnodup, Hm.
    + destruct (Input c); simplify_eq/=; done.
    + destruct (compile_permutation d3d shader options permutation) as [f|[[s r] text]];
        simplify_eq/=; done.
    + destruct messages as [|a messages]; cbv beta iota in Hworker.
      * simplify_eq. done.
      * destruct (getline (String a messages)) as [message remaining].
        destruct (regex_match message warningIgnoreRegex);
          [|destruct (decide (message ∈ Messages c)) as [Hseen|Hnew]]; simplify_eq;
          simpl; split; try done.
        intros ????? [= <- <- <- <- <-]. done.
    + simplify_eq/=. split; [|done].
      rewrite app_nil_r in Hnodup. apply NoDup_app. split_and!; [done| |apply NoDup_singleton].
      intros m Hprinted ->%list_elem_of_singleton.
      apply (Hfresh _ _ _ _ _ eq_refl), Hm, elem_of_app. by left.
    + simplify_eq/=. split; [|done]. by rewrite app_nil_r.
    + destruct success; simplify_eq/=; done.
    + done.
    + done.
  - destruct Hover as (i & p & behind & success & result & messages & Hlook & _ & ->).
    rewrite Hone in Hlook, Hws'. destruct i; simplify_eq/=.
    destruct (Hsingle _ Hone) as [Hnodup _]. split; [done|]. by intros.
Qed.

Lemma reachable_single hardware_concurrency permutations σ :
  threadCount hardware_concurrency permutations = 1%nat →
  reachable d3d shader options hardware_concurrency permutations σ →
  single_worker_invariant σ.
Proof.
  intros Hone. revert σ. apply reachable_ind.
  - intros w Hw. simpl in Hw. rewrite Hone in Hw. simplify_eq/=.
    split; [constructor|done].
  - intros σ σ' Hreach IH Hstep.
    eapply single_worker_step; eauto using reachable_log_single.
Qed.

Lemma in_queue_order_step σ σ' :
  in_queue_order σ → step σ σ' → in_queue_order σ'.
Proof.
  intros Horder Hstep w'' Hws'.
  destruct (single_worker_after _ _ _ Hstep Hws') as (w & Hone & [[i Horderly]|Hover]).
  - apply pool_step_at_Some in Horderly as (w0 & w' & Hlook & Hworker & Hws).
    rewrite Hone in Hlook, Hws. destruct i; simplify_eq/=.
    destruct (Horder w0 Hone) as [Hd Hi].
    destruct σ as [c t ws], σ' as [c' t' ws']. simpl in *. clear Horder Hone Hstep.
    destruct w0 as [|permutation|permutation success result messages
                   |permutation success result message messages
                   |permutation success result message messages
                   |permutation success result| |permutation f];
      simpl in Hworker, Hd, Hi; rewrite ?app_nil_r in *.
    + destruct (Input c); simplify_eq/=; rewrite ?app_nil_r; split; congruence.
    + destruct (compile_permutation d3d shader options permutation)
        as [f|[[success result] text]]; simplify_eq/=; rewrite ?app_nil_r; split; congruence.
    + destruct messages as [|a messages]; cbv beta iota in Hworker;
        [simplify_eq/=; rewrite ?app_nil_r; split; congruence|].
      destruct (getline (String a messages)) as [message remaining].
      destruct (regex_match message warningIgnoreRegex);
        [|destruct (decide (message ∈ Messages c))];
        simplify_eq/=; rewrite ?app_nil_r; split; congruence.
    + simplify_eq/=; rewrite ?app_nil_r; split; congruence.
    + simplify_eq/=; rewrite ?app_nil_r; split; congruence.
    + destruct success; simplify_eq/=; rewrite ?app_nil_r; split; congruence.
    + done.
    + done.
  - destruct Hover as (i & p & behind & success & result & messages & Hlook & _ & ->).
    rewrite Hone in Hlook, Hws'. destruct i; simplify_eq/=.
    destruct (Horder _ Hone) as [Hd Hi]. done.
Qed.

Lemma reachable_in_queue_order hardware_concurrency permutations σ :
  reachable d3d shader options hardware_concurrency permutations σ → in_queue_order σ.
Proof.
  revert σ. apply reachable_ind.
  - intros w Hw. simpl in *. destruct (threadCount _ _) as [|[|n]]; simplify_eq/=. done.
  - intros σ σ' _ IH Hstep. by eapply in_queue_order_step.
Qed.

(** The only worker of a pool, after the wait. *)
Lemma single_worker_returned hardware_concurrency permutations σ output :
  threadCount hardware_concurrency permutations = 1%nat →
  CompileShader_returns d3d shader options hardware_concurrency permutations σ output →
  workers σ = [Returned].
Proof.
  intros Hone (Hreach & Hjoined & _).
  pose proof (reachable_workers _ _ _ Hreach) as Hlen. rewrite Hone in Hlen.
  apply joined_returned in Hjoined; [|rewrite Hlen; unfold MAXIMUM_WAIT_OBJECTS; lia].
  unfold every_worker_returned in Hjoined.
  destruct (workers σ) as [|w [|w' ws]]; try done.
  by apply Forall_cons in Hjoined as [-> _].
Qed.

(** ** More on the batch *)

Lemma worker_step_grows w c t w' c' t' :
  worker_step d3d shader options w c t = Some (w', c', t') →
  (IsFailed c = true → IsFailed c' = true)
  ∧ Output c `prefix_of` Output c'
  ∧ Input c' `suffix_of` Input c
  ∧ printed t `prefix_of` printed t'
  ∧ handed t `prefix_of` handed t'.
Proof.
  intros Hstep.
  destruct w as [|permutation|permutation success result messages
                |permutation success result message messages
                |permutation success result message messages
                |permutation success result| |permutation f];
    simpl in Hstep.
  - destruct (Input c) as [|permutation rest] eqn:Hin; simplify_eq/=.
    + by rewrite Hin.
    + split_and!; try done. by apply suffix_cons_r.
  - destruct (compile_permutation d3d shader options permutation)
      as [f|[[success result] text]]; simplify_eq/=; done.
  - destruct messages as [|a messages]; cbv beta iota in Hstep; [by simplify_eq|].
    destruct (getline (String a messages)) as [message remaining].
    destruct (regex_match message warningIgnoreRegex);
      [|destruct (decide (message ∈ Messages c))]; by simplify_eq.
  - by simplify_eq/=.
  - simplify_eq/=. split_and!; try done; by apply prefix_app_r.
  - destruct success; simplify_eq/=; split_and!; try done. by apply prefix_app_r.
  - done.
  - done.
Qed.

(** X4. What the workers share, [Messages] apart, only grows, under every
    interleaving.  From any pool state to any later one: [IsFailed], once set,
    stays set; results are appended to [Output] and none is removed or
    changed; work items leave [Input] at the front, and none is put back;
    what has been printed stays printed; and the number of workers stays the
    same.  ([Messages] is the one part for which this fails: calls of
    [emplace] that overlap may leave it with anything.) *)
Theorem shared_state_grows σ σ' :
  rtc (pool_step d3d shader options) σ σ' →
  (IsFailed (context σ) = true → IsFailed (context σ') = true)
  ∧ Output (context σ) `prefix_of` Output (context σ')
  ∧ Input (context σ') `suffix_of` Input (context σ)
  ∧ printed (trace σ) `prefix_of` printed (trace σ')
  ∧ length (workers σ') = length (workers σ).
Proof.
  induction 1 as [σ|σ σ' σ'' Hstep _ (IHf & IHo & IHi & IHp & IHw)]; [done|].
  assert ((IsFailed (context σ) = true → IsFailed (context σ') = true)
          ∧ Output (context σ) `prefix_of` Output (context σ')
          ∧ Input (context σ') `suffix_of` Input (context σ)
          ∧ printed (trace σ) `prefix_of` printed (trace σ')
          ∧ length (workers σ') = length (workers σ)) as (Hf & Ho & Hi & Hp & Hw).
  { destruct Hstep as [[i Hstep]|[Hrace|Hover]].
    - apply pool_step_at_Some in Hstep as (w & w' & _ & Hstep & Hws).
      apply worker_step_grows in Hstep as (Hf & Ho & Hi & Hp & _).
      split_and!; try done. by rewrite Hws, length_insert.
    - destruct Hrace as (i & w & p & success & result & message & remaining & w' & M'
                         & _ & _ & _ & _ & ->).
      simpl. split_and!; try done. by rewrite length_insert.
    - destruct Hover as (i & p & behind & success & result & messages & _ & _ & ->).
      simpl. split_and!; try done. by rewrite length_insert. }
  split_and!.
  - auto.
  - by etrans.
  - by etrans.
  - by etrans.
  - by rewrite IHw, Hw.
Qed.

(** X5. Where what a batch prints comes from.  At every moment of a batch,
    under every interleaving, each text printed is what [printf] writes for
    the line the worker held, the characters of the line before its first
    zero character; and each such line is a line of the diagnostics the
    backend returned for a permutation of the batch, and not one the ignore
    pattern matches: the workers print nothing of their own. *)
Theorem printed_lines_come_from_diagnostics hardware_concurrency permutations σ :
  reachable d3d shader options hardware_concurrency permutations σ →
  printed (trace σ) = c_str <$> handed (trace σ)
  ∧ (∀ l, l ∈ handed (trace σ) →
          regex_match l warningIgnoreRegex = false
          ∧ ∃ p, p ∈ permutations ∧ l ∈ permutation_lines d3d shader options p)
  ∧ (∀ text, text ∈ printed (trace σ) →
             ∃ l p, text = c_str l
                    ∧ regex_match l warningIgnoreRegex = false
                    ∧ p ∈ permutations
                    ∧ l ∈ permutation_lines d3d shader options p).
Proof.
  intros Hinv%reachable_invariant.
  assert (∀ l, l ∈ handed (trace σ) →
               regex_match l warningIgnoreRegex = false
               ∧ ∃ p, p ∈ permutations ∧ l ∈ permutation_lines d3d shader options p)
    as Hhanded.
  { intros l Hl. destruct (inv_handed _ _ _ _ _ Hinv l Hl) as (Hrep & p & Hp & Hlines).
    split; [done|]. exists p. split; [|done]. by eapply held_from_queue. }
  split; [apply (inv_printed _ _ _ _ _ Hinv)|]. split; [done|].
  intros text. rewrite (inv_printed _ _ _ _ _ Hinv).
  intros (l & -> & Hl)%list_elem_of_fmap.
  destruct (Hhanded l Hl) as (Hrep & p & Hp & Hlines). eauto 6.
Qed.

Lemma elem_of_reported_lines permutations l :
  l ∈ reported_lines d3d shader options permutations
  ↔ reported l ∧ ∃ p, p ∈ permutations ∧ l ∈ permutation_lines d3d shader options p.
Proof.
  unfold reported_lines.
  rewrite elem_of_remove_dups, list_elem_of_filter, list_elem_of_bind.
  unfold reported. naive_solver.
Qed.

Lemma filter_fmap_length {A B} `{EqDecision B} (f : A → B) (y : B) (l : list A) :
  length (filter (y =.) (f <$> l)) = length (filter (λ x, y = f x) l).
Proof.
  induction l as [|x l IH]; [done|].
  rewrite fmap_cons, !filter_cons. destruct (decide (y = f x)); simpl; by rewrite IH.
Qed.

(** With one worker, every line the pattern lets through has been handed
    to [printf] once by the time [CompileShader] returns. *)
Lemma single_worker_handed hardware_concurrency permutations σ output :
  threadCount hardware_concurrency permutations = 1%nat →
  CompileShader_returns d3d shader options hardware_concurrency permutations σ output →
  handed (trace σ) ≡ₚ reported_lines d3d shader options permutations.
Proof.
  intros Hone Hret.
  pose proof (single_worker_returned _ _ _ _ Hone Hret) as Hws.
  assert (0 < hardware_concurrency)%nat as Hhw by (unfold threadCount in Hone; lia).
  assert (threadCount hardware_concurrency permutations ≤ MAXIMUM_WAIT_OBJECTS)%nat as Hmax.
  { rewrite Hone. unfold MAXIMUM_WAIT_OBJECTS. lia. }
  destruct (returned_batch _ _ _ _ Hhw Hmax Hret) as (_ & _ & _ & _ & Hfin).
  destruct Hret as (Hreach & _ & _).
  pose proof (reachable_invariant _ _ _ Hreach) as Hinv.
  pose proof (reachable_log_single _ _ _ Hone Hreach) as Hlog.
  destruct (reachable_single _ _ _ Hone Hreach Returned Hws) as [Hnodup _].
  simpl in Hnodup. rewrite app_nil_r in Hnodup.
  apply NoDup_Permutation; [done|apply NoDup_remove_dups|].
  intros l. rewrite elem_of_reported_lines. split.
  - intros Hl. destruct (inv_handed _ _ _ _ _ Hinv l Hl) as (Hrep & p & Hp & Hlines).
    split; [done|]. exists p. split; [|done]. by eapply held_from_queue.
  - intros (Hrep & p & Hp & Hlines).
    assert (l ∈ Messages (context σ)) as Hm.
    { apply (log_finished _ _ _ _ Hlog p); [by rewrite Hfin|done|done]. }
    apply (log_messages _ _ _ _ Hlog) in Hm. rewrite Hws in Hm.
    simpl in Hm. by rewrite app_nil_r in Hm.
Qed.

(** X6. With one worker the deduplication is exact on the lines, not on
    what is printed.  Once [CompileShader] has returned from a pool of one
    worker, the lines handed to [printf] are the lines of the diagnostics of
    all permutations that the ignore pattern lets through, each one once
    however many permutations report it; and a text has been printed as many
    times as there are such lines that begin with it and go on with a zero
    character or end. *)
Theorem single_worker_prints_once hardware_concurrency permutations σ output :
  threadCount hardware_concurrency permutations = 1%nat →
  CompileShader_returns d3d shader options hardware_concurrency permutations σ output →
  handed (trace σ) ≡ₚ reported_lines d3d shader options permutations
  ∧ printed (trace σ) ≡ₚ c_str <$> reported_lines d3d shader options permutations
  ∧ ∀ text,
      times_printed text σ
      = length (filter (λ l, text = c_str l)
                  (reported_lines d3d shader options permutations)).
Proof.
  intros Hone Hret.
  pose proof (single_worker_handed _ _ _ _ Hone Hret) as Hhanded.
  destruct Hret as (Hinv%reachable_invariant & _ & _).
  pose proof (inv_printed _ _ _ _ _ Hinv) as Hprinted.
  split; [done|]. split; [by rewrite Hprinted, Hhanded|].
  intros text. unfold times_printed.
  by rewrite Hprinted, filter_fmap_length, Hhanded.
Qed.

(** X10. One worker keeps the order.  When the pool has a single worker
    (one hardware thread, or one permutation), the iterations end in the order
    of the permutations, so [Output] holds the results of the permutations the
    backend compiled in the order of the permutations; in a batch without a
    failure, what [CompileShader] returns is in that order.  With more workers
    the order is that in which the iterations happen to end. *)
Theorem single_worker_keeps_order hardware_concurrency permutations σ output :
  threadCount hardware_concurrency permutations = 1%nat →
  CompileShader_returns d3d shader options hardware_concurrency permutations σ output →
  finished (trace σ) = permutations
  ∧ ShaderKey <$> Output (context σ)
    = Key <$> filter (λ p, hr_succeeded (invoke_backend d3d shader options p) = true)
                permutations
  ∧ ((∀ p, p ∈ permutations →
           hr_succeeded (invoke_backend d3d shader options p) = true) →
     ShaderKey <$> output = Key <$> permutations).
Proof.
  intros Hone Hret.
  pose proof (single_worker_returned _ _ _ _ Hone Hret) as Hws.
  assert (0 < hardware_concurrency)%nat as Hhw by (unfold threadCount in Hone; lia).
  assert (threadCount hardware_concurrency permutations ≤ MAXIMUM_WAIT_OBJECTS)%nat as Hmax.
  { rewrite Hone. unfold MAXIMUM_WAIT_OBJECTS. lia. }
  destruct (returned_batch _ _ _ _ Hhw Hmax Hret) as (_ & _ & Hdequeued & _ & _).
  destruct Hret as (Hreach & _ & ->).
  pose proof (reachable_invariant _ _ _ Hreach) as Hinv.
  assert (finished (trace σ) = permutations) as Hfin.
  { destruct (reachable_in_queue_order _ _ _ Hreach Returned Hws) as [Hd Hi].
    simpl in Hd, Hi. rewrite !app_nil_r in *. congruence. }
  pose proof (output_keys _ _ Hinv) as Hkeys. rewrite Hfin in Hkeys.
  split_and!; [done|exact Hkeys|].
  intros Hall. unfold return_value.
  rewrite (filter_succeeds_all _ Hall) in Hkeys.
  rewrite (inv_failed _ _ _ _ _ Hinv), Hfin.
  assert (existsb (λ p, negb (hr_succeeded (invoke_backend d3d shader options p)))
            permutations = false) as ->; [|done].
  apply not_true_iff_false. rewrite existsb_exists.
  intros (p & Hp%list_elem_of_In & Hneg). by rewrite (Hall p Hp) in Hneg.
Qed.

(** X11. An empty result has a cause.  Once [CompileShader] has returned
    from a wait for at least one and at most 64 workers, [IsFailed] is set
    exactly when the backend fails on some permutation of the batch, and the
    sequence returned is empty exactly when it does or the batch has no
    permutation at all.  The caller, who looks at [output.empty()] only,
    cannot tell the two apart. *)
Theorem empty_result_exactly_when hardware_concurrency permutations σ output :
  (0 < hardware_concurrency)%nat →
  (threadCount hardware_concurrency permutations ≤ MAXIMUM_WAIT_OBJECTS)%nat →
  CompileShader_returns d3d shader options hardware_concurrency permutations σ output →
  (IsFailed (context σ) = true
   ↔ ∃ p, p ∈ permutations ∧ hr_succeeded (invoke_backend d3d shader options p) = false)
  ∧ (output = []
     ↔ permutations = []
       ∨ ∃ p, p ∈ permutations ∧ hr_succeeded (invoke_backend d3d shader options p) = false).
Proof.
  intros Hhw Hmax Hret.
  destruct (returned_context _ _ _ _ Hhw Hmax Hret) as (Hfin & Hfailed & Houtput).
  assert (IsFailed (context σ) = true
          ↔ ∃ p, p ∈ permutations
                 ∧ hr_succeeded (invoke_backend d3d shader options p) = false) as Hiff.
  { rewrite Hfailed, existsb_exists. setoid_rewrite negb_true_iff.
    setoid_rewrite <-list_elem_of_In. done. }
  split; [done|]. rewrite <-Hiff. destruct Hret as (_ & _ & ->). unfold return_value.
  destruct (IsFailed (context σ)) eqn:Hflag.
  - split; [by right|done].
  - assert (∀ p, p ∈ permutations →
                 hr_succeeded (invoke_backend d3d shader options p) = true) as Hall.
    { intros p Hp. destruct (hr_succeeded _) eqn:Hp'; [done|].
      assert (false = true) as [=]. apply Hiff. eauto. }
    apply Permutation_length in Houtput.
    rewrite (filter_succeeds_all _ Hall), !length_fmap in Houtput.
    split.
    + intros Hnil. left. rewrite Hnil in Houtput. by destruct permutations.
    + intros [->|[=]]. by destruct (Output (context σ)).
Qed.

Lemma Forall2_omap {A B} (f : A → option B) (l : list A) (k : list B) :
  Forall2 (λ x y, f x = Some y) l k → omap f l = k.
Proof.
  induction 1 as [|x y l k Hxy _ IH]; [done|].
  cbn [omap list_omap]. rewrite Hxy. simpl. by rewrite IH.
Qed.

(** Without a fault, [Output] holds what the iterations that have ended
    saved. *)
Lemma output_saved permutations σ :
  (∀ p, p ∈ permutations → fault_free d3d shader options p) →
  invariant permutations σ →
  Output (context σ)
  = omap (saved_result d3d shader options)
      (filter (succeeds d3d shader options) (finished (trace σ))).
Proof.
  intros Hfree Hinv. symmetry. apply Forall2_omap.
  eapply Forall2_impl_elem; [apply (inv_output _ _ _ _ _ Hinv)|].
  intros p r [_ Hp]%list_elem_of_filter [text Hc]. simpl.
  assert (fault_free d3d shader options p) as Hp'.
  { apply Hfree. eapply held_from_queue; [done|].
    rewrite (inv_invoked _ _ _ _ _ Hinv), elem_of_app. by left. }
  unfold saved_result.
  destruct (compile_permutation d3d shader options p) as [f|outcome] eqn:Hcompile;
    [by destruct (Hp' f)|].
  by rewrite (computes_saved _ _ _ _ _ Hcompile Hc).
Qed.

(** X12. The outcome of a batch does not depend on how its workers are
    scheduled, as long as the wait covers them all.  Two runs of
    [CompileShader] on the same permutations with the same number of hardware
    threads, and at most 64 workers, agree on [IsFailed] and return results
    under the same keys, up to their order, however the workers interleave;
    when no permutation makes a worker fault they return the same results up
    to their order. *)
Theorem result_independent_of_schedule hardware_concurrency permutations
    σ1 output1 σ2 output2 :
  (threadCount hardware_concurrency permutations ≤ MAXIMUM_WAIT_OBJECTS)%nat →
  CompileShader_returns d3d shader options hardware_concurrency permutations σ1 output1 →
  CompileShader_returns d3d shader options hardware_concurrency permutations σ2 output2 →
  IsFailed (context σ1) = IsFailed (context σ2)
  ∧ ShaderKey <$> output1 ≡ₚ ShaderKey <$> output2
  ∧ ((∀ p, p ∈ permutations → fault_free d3d shader options p) → output1 ≡ₚ output2).
Proof.
  intros Hmax Hret1 Hret2.
  destruct hardware_concurrency as [|hw].
  { destruct Hret1 as (Hreach1 & _ & ->), Hret2 as (Hreach2 & _ & ->).
    rewrite (reachable_without_workers 0 permutations σ1 eq_refl Hreach1).
    by rewrite (reachable_without_workers 0 permutations σ2 eq_refl Hreach2). }
  destruct (returned_context (S hw) permutations σ1 output1 ltac:(lia) Hmax Hret1)
    as (Hfin1 & Hfailed1 & Hkeys1).
  destruct (returned_context (S hw) permutations σ2 output2 ltac:(lia) Hmax Hret2)
    as (Hfin2 & Hfailed2 & Hkeys2).
  assert (IsFailed (context σ1) = IsFailed (context σ2)) as Hfailed by congruence.
  destruct Hret1 as (Hreach1%reachable_invariant & _ & ->).
  destruct Hret2 as (Hreach2%reachable_invariant & _ & ->).
  unfold return_value. rewrite <-Hfailed.
  split_and!.
  - done.
  - destruct (IsFailed (context σ1)); [done|]. by rewrite Hkeys1, Hkeys2.
  - intros Hfree. destruct (IsFailed (context σ1)); [done|].
    rewrite (output_saved _ _ Hfree Hreach1), (output_saved _ _ Hfree Hreach2).
    by rewrite Hfin1, Hfin2.
Qed.
End BatchProofs.

(** ** Concrete batches *)

Lemma clean_batch_fault_free p :
  p ∈ clean_batch → fault_free sample_d3d sample_shader release_options p.
Proof.
  intros Hp f. unfold clean_batch in Hp.
  repeat (apply elem_of_cons in Hp as [->|Hp]); try (vm_compute; discriminate).
  by apply elem_of_nil in Hp.
Qed.

Lemma clean_batch_compiles p :
  p ∈ clean_batch →
  hr_succeeded (invoke_backend sample_d3d sample_shader release_options p) = true.
Proof.
  intros Hp. unfold clean_batch in Hp.
  repeat (apply elem_of_cons in Hp as [->|Hp]); try reflexivity.
  by apply elem_of_nil in Hp.
Qed.

Lemma wide_batch_compiles p :
  p ∈ wide_batch →
  hr_succeeded (invoke_backend sample_d3d sample_shader release_options p) = true.
Proof. unfold wide_batch. by intros (n & -> & _)%list_elem_of_fmap. Qed.

(** The pool run to its end on [sample_batch], two hardware threads. *)
Lemma sample_batch_returns :
  CompileShader_returns sample_d3d sample_shader release_options 2 sample_batch
    (run_pool sample_d3d sample_shader release_options 100 (spawn 2 sample_batch))
    (return_value (run_pool sample_d3d sample_shader release_options 100 (spawn 2 sample_batch))).
Proof.
  split; [apply run_pool_steps|]. split; [|reflexivity].
  apply returned_joined, all_returned_joined. vm_compute. reflexivity.
Qed.

(** The interleaved run on [clean_batch]. *)
Lemma clean_batch_returns :
  CompileShader_returns sample_d3d sample_shader release_options 2 clean_batch
    (run_schedule sample_d3d sample_shader release_options second_worker_first
       (spawn 2 clean_batch))
    (return_value (run_schedule sample_d3d sample_shader release_options second_worker_first
                     (spawn 2 clean_batch))).
Proof.
  split; [apply run_schedule_steps|]. split; [|reflexivity].
  apply returned_joined, all_returned_joined. vm_compute. reflexivity.
Qed.

(** One worker on [sample_batch]. *)
Lemma sample_batch_single_returns :
  CompileShader_returns sample_d3d sample_shader release_options 1 sample_batch
    (run_pool sample_d3d sample_shader release_options 100 (spawn 1 sample_batch))
    (return_value (run_pool sample_d3d sample_shader release_options 100 (spawn 1 sample_batch))).
Proof.
  split; [apply run_pool_steps|]. split; [|reflexivity].
  apply returned_joined, all_returned_joined. vm_compute. reflexivity.
Qed.

(** With more than 64 workers the wait is over as soon as it begins. *)
Lemma crowded_pool_joined {O} d3d (shader : ShaderInfo O) options schedule permutations :
  (MAXIMUM_WAIT_OBJECTS < threadCount 65 permutations)%nat →
  forallb (λ w, negb (crashed w))
    (workers (run_schedule d3d shader options schedule (spawn 65 permutations))) = true →
  CompileShader_returns d3d shader options 65 permutations
    (run_schedule d3d shader options schedule (spawn 65 permutations))
    (return_value (run_schedule d3d shader options schedule (spawn 65 permutations))).
Proof.
  intros Hmany Halive. split; [apply run_schedule_steps|]. split; [|reflexivity].
  unfold joined. rewrite decide_False.
  - apply Forall_forall. intros w Hw%list_elem_of_In.
    rewrite forallb_forall in Halive. specialize (Halive w Hw). by destruct (crashed w).
  - rewrite (reachable_workers d3d shader options 65 permutations)
      by apply run_schedule_steps. lia.
Qed.

(** C1, as stated, fails, in two ways.

    Sixty-five hardware threads and sixty-five permutations, of which the
    backend compiles the first only: [WaitForMultipleObjects] takes 64 handles
    at most, fails at once, and [CompileShader] goes on to read the context
    while the workers run.  When the first worker has put its result into
    [Output] by then and no failure has been recorded yet, [CompileShader]
    returns this result, although the backend fails on every other
    permutation.

    One hardware thread and one permutation, for which the backend fails
    and leaves the diagnostics blob null: the worker follows the null pointer,
    and [CompileShader] returns nothing at all. *)
Lemma failed_sibling_not_withheld :
  let σ := run_schedule sample_d3d sample_shader release_options (replicate 8 0%nat)
             (spawn 65 crowded_batch) in
  (length (workers σ) = 65%nat
   ∧ broken_permutation "1" ∈ crowded_batch
   ∧ hr_succeeded (invoke_backend sample_d3d sample_shader release_options
                     (broken_permutation "1")) = false
   ∧ CompileShader_returns sample_d3d sample_shader release_options 65 crowded_batch σ
       (return_value σ)
   ∧ ShaderKey <$> return_value σ = ["0"])
  ∧ (hr_succeeded (invoke_backend sample_d3d_missing_file sample_shader release_options
                     (sample_permutation "0" "0")) = false
     ∧ compile_permutation sample_d3d_missing_file sample_shader release_options
         (sample_permutation "0" "0") = inl NullDereference
     ∧ ∀ σ' output,
         ¬ CompileShader_returns sample_d3d_missing_file sample_shader release_options 1
             [sample_permutation "0" "0"] σ' output).
Proof.
  split.
  - split_and!; try (vm_compute; reflexivity).
    + apply (bool_decide_unpack _). vm_compute. exact I.
    + apply crowded_pool_joined; [vm_compute; lia|vm_compute; reflexivity].
  - split_and!; try reflexivity.
    intros σ' output.
    apply (no_return_without_diagnostics sample_d3d_missing_file sample_shader
             release_options 1 [sample_permutation "0" "0"] (sample_permutation "0" "0"));
      [lia|vm_compute; lia|by left|reflexivity].
Qed.

(** Two of the three permutations of [sample_batch] compile and reach
    [Output]; nothing is returned. *)
Lemma all_or_nothing_witness :
  ShaderKey <$> Output (context (run_pool sample_d3d sample_shader release_options 100
                                   (spawn 2 sample_batch))) = ["0"; "2"]
  ∧ return_value (run_pool sample_d3d sample_shader release_options 100 (spawn 2 sample_batch))
    = [].
Proof.
  split; [vm_compute; reflexivity|].
  apply (proj1 (all_or_nothing sample_d3d sample_shader release_options 2 sample_batch
                  (broken_permutation "1") ltac:(vm_compute; lia)
                  (list_elem_of_further _ _ _ (list_elem_of_here _ _)) eq_refl)
           _ _ sample_batch_returns).
Defined.

(** The three results of [clean_batch] come back, here in the order in which
    the iterations ended. *)
Lemma zero_failure_completeness_witness :
  ShaderKey <$> return_value (run_schedule sample_d3d sample_shader release_options
                                second_worker_first (spawn 2 clean_batch))
  = ["1"; "2"; "0"]
  ∧ ShaderKey <$> return_value (run_schedule sample_d3d sample_shader release_options
                                  second_worker_first (spawn 2 clean_batch))
    ≡ₚ Key <$> clean_batch.
Proof.
  split; [vm_compute; reflexivity|].
  apply (proj1 (zero_failure_completeness sample_d3d sample_shader release_options 2
                  clean_batch ltac:(lia) ltac:(vm_compute; lia) clean_batch_compiles)
           _ _ clean_batch_returns).
Defined.

(** C2, as stated, fails.  With no hardware thread reported, a batch of one
    permutation the backend compiles returns nothing.  With sixty-five
    workers for sixty-five permutations the backend compiles, the wait is over
    at once and [CompileShader] can return before any result is there.  And
    for a permutation the backend compiles without a diagnostics blob
    [CompileShader] does not return. *)
Lemma no_hardware_thread_nothing_compiled :
  ((0 < length [sample_permutation "0" "0"])%nat
   ∧ hr_succeeded (invoke_backend sample_d3d sample_shader release_options
                     (sample_permutation "0" "0")) = true
   ∧ CompileShader_returns sample_d3d sample_shader release_options 0
       [sample_permutation "0" "0"] (spawn 0 [sample_permutation "0" "0"]) [])
  ∧ (length wide_batch = 65%nat
     ∧ (∀ p, p ∈ wide_batch →
             hr_succeeded (invoke_backend sample_d3d sample_shader release_options p) = true)
     ∧ CompileShader_returns sample_d3d sample_shader release_options 65 wide_batch
         (spawn 65 wide_batch) [])
  ∧ (hr_succeeded (invoke_backend sample_d3d sample_shader release_options
                     (quiet_permutation "0")) = true
     ∧ ∀ σ output,
         ¬ CompileShader_returns sample_d3d sample_shader release_options 1
             [quiet_permutation "0"] σ output).
Proof.
  split_and!; try reflexivity.
  - simpl. lia.
  - split; [apply rtc_refl|]. split; [apply returned_joined; constructor|reflexivity].
  - apply wide_batch_compiles.
  - apply (crowded_pool_joined sample_d3d sample_shader release_options [] wide_batch);
      [vm_compute; lia|vm_compute; reflexivity].
  - intros σ output.
    apply (no_return_without_diagnostics sample_d3d sample_shader release_options 1
             [quiet_permutation "0"] (quiet_permutation "0"));
      [lia|vm_compute; lia|by left|reflexivity].
Qed.

(** The interleaved run leaves the queue in order and ends every iteration;
    [Output] holds a result under the key of each permutation. *)
Lemma queue_drained_exactly_once_witness :
  let σ := run_schedule sample_d3d sample_shader release_options second_worker_first
             (spawn 2 clean_batch) in
  dequeued (trace σ) = clean_batch
  ∧ finished (trace σ) ≡ₚ clean_batch
  ∧ ShaderKey <$> Output (context σ)
    ≡ₚ Key <$> filter (λ p, hr_succeeded (backend_call sample_d3d sample_shader
                                             release_options p) = true) clean_batch.
Proof.
  intros σ.
  pose proof (queue_drained_exactly_once sample_d3d sample_shader release_options 2 clean_batch
                σ (proj1 clean_batch_returns)) as H.
  destruct H as (_ & _ & _ & _ & _ & _ & _ & _ & _ & H).
  destruct (H ltac:(lia) ltac:(vm_compute; lia) (proj1 (proj2 clean_batch_returns)))
    as (Hd & _ & Hf & _ & Ho).
  exact (conj Hd (conj Hf Ho)).
Defined.

(** One worker, two permutations, the first of which the backend compiles
    without a diagnostics blob: the worker follows the null pointer, and the
    second permutation stays in the queue. *)
Lemma second_permutation_never_dequeued σ :
  reachable sample_d3d sample_shader release_options 1
    [quiet_permutation "0"; sample_permutation "1" "1"] σ →
  dequeued (trace σ) ++ Input (context σ)
  = [quiet_permutation "0"; sample_permutation "1" "1"]
  ∧ sample_permutation "1" "1" ∈ Input (context σ).
Proof.
  intros Hreach.
  assert (σ = spawn 1 [quiet_permutation "0"; sample_permutation "1" "1"]
          ∨ (workers σ = [Compiling (quiet_permutation "0")]
             ∨ workers σ = [Faulted (quiet_permutation "0") NullDereference])
            ∧ Input (context σ) = [sample_permutation "1" "1"]) as Hstates.
  { revert σ Hreach. apply reachable_ind; [by left|].
    intros σ σ' _ IH Hstep.
    assert (∃ w, workers σ = [w]) as [w Hone].
    { destruct IH as [->|[[->| ->] _]]; eauto. }
    destruct (single_worker_step_kind _ _ _ _ _ _ Hone Hstep) as [[i Horderly]|Hover].
    - right. unfold pool_step_at in Horderly.
      destruct IH as [->|[[Hw|Hw] Hin]].
      + destruct i as [|i]; [|done]. vm_compute in Horderly. simplify_eq. auto.
      + rewrite Hw in Horderly. destruct i as [|i]; [|done].
        simpl in Horderly. simplify_eq/=. auto.
      + rewrite Hw in Horderly. by destruct i as [|i].
    - destruct Hover as (i & p & behind & success & result & messages & Hlook & _).
      destruct IH as [->|[[Hw|Hw] _]]; [|rewrite Hw in Hlook..];
        by destruct i as [|[|i]]. }
  split; [apply (inv_queue _ _ _ _ _ (reachable_invariant _ _ _ _ _ _ Hreach))|].
  destruct Hstates as [->|[_ ->]]; [by right; left|by left].
Qed.

(** C8, as stated, fails.  With no hardware thread reported no worker is
    there to take the one permutation out of the queue, and [CompileShader]
    returns with the backend never called.  With sixty-five workers the wait
    is over at once, and [CompileShader] can return with the queue as it was.
    And a worker that has followed a null pointer takes no further item: the
    permutation behind the one it died on never leaves the queue. *)
Lemma no_hardware_thread_queue_untouched :
  (CompileShader_returns sample_d3d sample_shader release_options 0
     [sample_permutation "0" "0"] (spawn 0 [sample_permutation "0" "0"]) []
   ∧ Input (context (spawn 0 [sample_permutation "0" "0"])) = [sample_permutation "0" "0"]
   ∧ dequeued (trace (spawn 0 [sample_permutation "0" "0"])) = []
   ∧ invoked (trace (spawn 0 [sample_permutation "0" "0"])) = [])
  ∧ (CompileShader_returns sample_d3d sample_shader release_options 65 crowded_batch
       (spawn 65 crowded_batch) []
     ∧ length (workers (spawn 65 crowded_batch)) = 65%nat
     ∧ Input (context (spawn 65 crowded_batch)) = crowded_batch
     ∧ invoked (trace (spawn 65 crowded_batch)) = [])
  ∧ (threadCount 1 [quiet_permutation "0"; sample_permutation "1" "1"] = 1%nat
     ∧ ∀ σ, reachable sample_d3d sample_shader release_options 1
              [quiet_permutation "0"; sample_permutation "1" "1"] σ →
            sample_permutation "1" "1" ∈ Input (context σ)).
Proof.
  split_and!; try reflexivity.
  - split; [apply rtc_refl|]. split; [apply returned_joined; constructor|reflexivity].
  - apply (crowded_pool_joined sample_d3d sample_shader release_options [] crowded_batch);
      [vm_compute; lia|vm_compute; reflexivity].
  - intros σ Hreach. by apply second_permutation_never_dequeued.
Qed.

(** The interleaving in which both workers look the truncation warning up
    before either has inserted it. *)
Lemma racing_batch_returns :
  CompileShader_returns sample_d3d sample_shader release_options 2 clean_batch
    (run_schedule sample_d3d sample_shader release_options both_look_up_first
       (spawn 2 clean_batch))
    (return_value (run_schedule sample_d3d sample_shader release_options both_look_up_first
                     (spawn 2 clean_batch))).
Proof.
  split; [apply run_schedule_steps|]. split; [|reflexivity].
  apply returned_joined, all_returned_joined. vm_compute. reflexivity.
Qed.

(** C7 fails on the code.  Two workers, three permutations whose
    diagnostics hold the same truncation warning: when each worker has looked
    the warning up in [Messages] before the other has inserted it, both
    [emplace] calls report an insertion and both workers print the line.
    [CompileShader] returns with the three results, and the line, which the
    ignore pattern lets through, stands twice in the log. *)
Theorem shared_line_printed_twice :
  let warning := "s.hlsl(7,1): warning X3206: implicit truncation of vector type" in
  let σ := run_schedule sample_d3d sample_shader release_options both_look_up_first
             (spawn 2 clean_batch) in
  CompileShader_returns sample_d3d sample_shader release_options 2 clean_batch σ
    (return_value σ)
  ∧ length (return_value σ) = 3%nat
  ∧ regex_match warning warningIgnoreRegex = false
  ∧ warning ∈ permutation_lines sample_d3d sample_shader release_options
                (sample_permutation "0" "0")
  ∧ warning ∈ permutation_lines sample_d3d sample_shader release_options
                (sample_permutation "1" "1")
  ∧ about_to_insert <$> workers (run_schedule sample_d3d sample_shader release_options
                                   (take 8 both_look_up_first) (spawn 2 clean_batch))
    = [[warning]; [warning]]
  ∧ printed (trace σ) = [warning; warning]
  ∧ times_printed warning σ = 2%nat.
Proof.
  split; [exact racing_batch_returns|].
  split_and!; try (vm_compute; reflexivity);
    apply (bool_decide_unpack _); vm_compute; exact I.
Qed.

(** The log of the run on [sample_batch]: the pragma warning never, the
    truncation warning of three permutations once, the error once. *)
Example sample_batch_log :
  printed (trace (run_pool sample_d3d sample_shader release_options 100 (spawn 2 sample_batch)))
  = ["s.hlsl(7,1): warning X3206: implicit truncation of vector type";
     "s.hlsl(9,1): error X3000: syntax error"].
Proof. vm_compute. reflexivity. Qed.

(** Two lines that differ behind a zero character only: the worker hands
    both to [printf], and [printf] writes the same text twice. *)
Example lines_cut_at_zero_character :
  let σ := run_pool sample_d3d_with_nul sample_shader release_options 100
             (spawn 1 [sample_permutation "0" "0"]) in
  all_returned σ = true
  ∧ handed (trace σ) = [String "a" (String nul "b"); String "a" (String nul "c")]
  ∧ printed (trace σ) = ["a"; "a"].
Proof. vm_compute. done. Qed.

(** X17. What calls of [Messages.emplace] that overlap can do besides.
    Two workers on three permutations whose diagnostics hold the same warning.
    When the second worker's call overlaps the first one's and comes back
    reporting an insertion that is lost, and later the first worker's call
    overlaps the next call of the second in the same way, the warning is
    printed three times, once more than there are workers, and
    [CompileShader] returns the three results.  When instead the second
    worker does not come out of the overlapped call, [CompileShader] does not
    return, although no permutation of the batch makes a worker follow a bad
    pointer. *)
Theorem overlapping_emplace_outcomes :
  let warning := "s.hlsl(7,1): warning X3206: implicit truncation of vector type" in
  let run := run_schedule sample_d3d sample_shader release_options in
  let σ1 := run [0; 0; 0; 1; 1; 1]%nat (spawn 2 clean_batch) in
  let σ2 := race_outcome (Some true) 1 ∅ σ1 in
  let σ3 := run (replicate 6 1%nat) σ2 in
  let σ4 := race_outcome (Some true) 0 ∅ σ3 in
  let σ5 := run (replicate 30 0%nat ++ replicate 30 1%nat) σ4 in
  let σ6 := race_outcome None 1 (Messages (context σ1)) σ1 in
  (overlapped_by 1 0 σ1 = true
   ∧ overlapped_by 0 1 σ3 = true
   ∧ CompileShader_returns sample_d3d sample_shader release_options 2 clean_batch σ5
       (return_value σ5)
   ∧ length (return_value σ5) = 3%nat
   ∧ printed (trace σ5) = [warning; warning; warning]
   ∧ length (workers σ5) = 2%nat)
  ∧ (reachable sample_d3d sample_shader release_options 2 clean_batch σ6
     ∧ workers σ6 !! 1%nat = Some (Faulted (sample_permutation "1" "1") DataRace)
     ∧ (∀ p, p ∈ clean_batch → fault_free sample_d3d sample_shader release_options p)
     ∧ ∀ σ' output,
         rtc (pool_step sample_d3d sample_shader release_options) σ6 σ' →
         ¬ CompileShader_returns sample_d3d sample_shader release_options 2 clean_batch
             σ' output).
Proof.
  intros warning run σ1 σ2 σ3 σ4 σ5 σ6.
  assert (overlapped_by 1 0 σ1 = true) as Hfirst by (vm_compute; reflexivity).
  assert (overlapped_by 0 1 σ3 = true) as Hsecond by (vm_compute; reflexivity).
  assert (reachable sample_d3d sample_shader release_options 2 clean_batch σ1) as Hσ1.
  { apply run_schedule_steps. }
  assert (reachable sample_d3d sample_shader release_options 2 clean_batch σ6) as Hσ6.
  { eapply rtc_r; [exact Hσ1|].
    exact (race_outcome_step sample_d3d sample_shader release_options None 1 0 _ σ1 Hfirst). }
  split.
  - split; [exact Hfirst|]. split; [exact Hsecond|]. split.
    { split; [|split; [|reflexivity]].
      - unfold reachable.
        etrans; [exact Hσ1|].
        eapply rtc_l;
          [exact (race_outcome_step sample_d3d sample_shader release_options
                    (Some true) 1 0 ∅ σ1 Hfirst)|].
        etrans; [apply run_schedule_steps|].
        eapply rtc_l;
          [exact (race_outcome_step sample_d3d sample_shader release_options
                    (Some true) 0 1 ∅ σ3 Hsecond)|].
        apply run_schedule_steps.
      - apply returned_joined, all_returned_joined. vm_compute. reflexivity. }
    split_and!; vm_compute; reflexivity.
  - split; [exact Hσ6|]. split; [vm_compute; reflexivity|].
    split; [exact clean_batch_fault_free|].
    intros σ' output.
    apply (no_return_after_crash sample_d3d sample_shader release_options 2 clean_batch
             σ6 σ' 1 (Faulted (sample_permutation "1" "1") DataRace));
      [vm_compute; lia|exact Hσ6|vm_compute; reflexivity|reflexivity].
Qed.

(** X18. A debug name that is not terminated inside its blob.  The worker
    reads the name on into the memory behind the blob up to the first zero
    byte it meets there, and goes on: [CompileShader] returns a result whose
    [PdbName] ends in bytes that are not the backend's. *)
Theorem name_read_past_its_blob :
  let permutation := sample_permutation "0" "0" in
  let d3d := sample_d3d_unterminated_name in
  let σ1 := run_schedule d3d sample_shader debug_options [0; 0]%nat (spawn 1 [permutation]) in
  let σ2 := overread_outcome d3d sample_shader debug_options [x62; x21; x00; x07] 0 σ1 in
  let σ3 := run_pool d3d sample_shader debug_options 100 σ2 in
  D3DGetBlobPart d3d [x44; x58; x42; x43; x01] D3D_BLOB_DEBUG_NAME
  = Some [x00; x00; x04; x00; x73; x2e; x70; x64]
  ∧ compile_permutation d3d sample_shader debug_options permutation = inl BufferOverread
  ∧ workers σ1 = [Faulted permutation BufferOverread]
  ∧ CompileShader_returns d3d sample_shader debug_options 1 [permutation] σ3
      (return_value σ3)
  ∧ PdbName <$> return_value σ3 = ["s.pdb!"].
Proof.
  intros permutation d3d σ1 σ2 σ3.
  split_and!; try (vm_compute; reflexivity).
  split; [|split; [|reflexivity]].
  - unfold reachable. etrans; [apply run_schedule_steps|].
    etrans; [apply overread_outcome_steps|]. apply run_pool_steps.
  - apply returned_joined, all_returned_joined. vm_compute. reflexivity.
Qed.

(** C4, as stated, fails: with no hardware thread reported and one
    permutation to compile no worker is spawned, and [CompileShader] returns
    with the permutation still in the queue. *)
Lemma no_hardware_thread_no_worker :
  (0 < length [sample_permutation "0" "0"])%nat
  ∧ threadCount 0 [sample_permutation "0" "0"] = 0%nat
  ∧ workers (spawn 0 [sample_permutation "0" "0"]) = []
  ∧ CompileShader_returns sample_d3d sample_shader release_options 0
      [sample_permutation "0" "0"] (spawn 0 [sample_permutation "0" "0"]) []
  ∧ Input (context (spawn 0 [sample_permutation "0" "0"])) = [sample_permutation "0" "0"].
Proof.
  split_and!; try reflexivity; [simpl; lia|].
  split; [apply rtc_refl|]. split; [apply returned_joined; constructor|reflexivity].
Qed.

(** ** Concrete runs, continued *)

(** From the state [sample_batch] is in after twenty steps to the end of the
    run. *)
Lemma shared_state_grows_witness :
  let σ := run_pool sample_d3d sample_shader release_options 20 (spawn 2 sample_batch) in
  let σ' := run_pool sample_d3d sample_shader release_options 100 σ in
  (IsFailed (context σ) = true → IsFailed (context σ') = true)
  ∧ Output (context σ) `prefix_of` Output (context σ')
  ∧ Input (context σ') `suffix_of` Input (context σ)
  ∧ printed (trace σ) `prefix_of` printed (trace σ')
  ∧ length (workers σ') = length (workers σ).
Proof.
  intros σ σ'.
  apply (shared_state_grows sample_d3d sample_shader release_options σ σ').
  apply run_pool_steps.
Defined.

(** The run in which two workers print the truncation warning. *)
Lemma printed_lines_come_from_diagnostics_witness :
  let σ := run_schedule sample_d3d sample_shader release_options both_look_up_first
             (spawn 2 clean_batch) in
  printed (trace σ) = c_str <$> handed (trace σ)
  ∧ (∀ l, l ∈ handed (trace σ) →
          regex_match l warningIgnoreRegex = false
          ∧ ∃ p, p ∈ clean_batch
                 ∧ l ∈ permutation_lines sample_d3d sample_shader release_options p)
  ∧ (∀ text, text ∈ printed (trace σ) →
             ∃ l p, text = c_str l
                    ∧ regex_match l warningIgnoreRegex = false
                    ∧ p ∈ clean_batch
                    ∧ l ∈ permutation_lines sample_d3d sample_shader release_options p).
Proof.
  intros σ.
  apply (printed_lines_come_from_diagnostics sample_d3d sample_shader release_options
           2 clean_batch σ).
  apply run_schedule_steps.
Defined.

(** One worker on a permutation whose diagnostics are two lines that differ
    behind a zero character only: each line is handed to [printf] once, and
    the text before the zero character is printed twice. *)
Lemma single_worker_prints_once_witness :
  let σ := run_pool sample_d3d_with_nul sample_shader release_options 100
             (spawn 1 [sample_permutation "0" "0"]) in
  reported_lines sample_d3d_with_nul sample_shader release_options
    [sample_permutation "0" "0"]
  = [String "a" (String nul "b"); String "a" (String nul "c")]
  ∧ times_printed "a" σ = 2%nat.
Proof.
  intros σ. split; [vm_compute; reflexivity|].
  assert (CompileShader_returns sample_d3d_with_nul sample_shader release_options 1
            [sample_permutation "0" "0"] σ (return_value σ)) as Hret.
  { split; [apply run_pool_steps|]. split; [|reflexivity].
    apply returned_joined, all_returned_joined. vm_compute. reflexivity. }
  rewrite (proj2 (proj2 (single_worker_prints_once sample_d3d_with_nul sample_shader
                           release_options 1 [sample_permutation "0" "0"] σ (return_value σ)
                           eq_refl Hret)) "a").
  vm_compute. reflexivity.
Defined.

(** One worker on [sample_batch]: the results of the first and the third
    permutation, in this order. *)
Lemma single_worker_keeps_order_witness :
  let σ := run_pool sample_d3d sample_shader release_options 100 (spawn 1 sample_batch) in
  finished (trace σ) = sample_batch
  ∧ ShaderKey <$> Output (context σ)
    = Key <$> filter (λ p, hr_succeeded (invoke_backend sample_d3d sample_shader
                                            release_options p) = true) sample_batch
  ∧ ((∀ p, p ∈ sample_batch →
           hr_succeeded (invoke_backend sample_d3d sample_shader release_options p) = true) →
     ShaderKey <$> return_value σ = Key <$> sample_batch).
Proof.
  intros σ.
  apply (single_worker_keeps_order sample_d3d sample_shader release_options 1 sample_batch
           σ (return_value σ)).
  - reflexivity.
  - apply sample_batch_single_returns.
Defined.

(** [sample_batch] returns nothing, and holds a permutation the backend
    fails on. *)
Lemma empty_result_exactly_when_witness :
  let σ := run_pool sample_d3d sample_shader release_options 100 (spawn 2 sample_batch) in
  (IsFailed (context σ) = true
   ↔ ∃ p, p ∈ sample_batch
          ∧ hr_succeeded (invoke_backend sample_d3d sample_shader release_options p) = false)
  ∧ (return_value σ = []
     ↔ sample_batch = []
       ∨ ∃ p, p ∈ sample_batch
              ∧ hr_succeeded (invoke_backend sample_d3d sample_shader release_options p)
                = false).
Proof.
  intros σ.
  apply (empty_result_exactly_when sample_d3d sample_shader release_options 2 sample_batch
           σ (return_value σ)).
  - lia.
  - vm_compute. lia.
  - apply sample_batch_returns.
Defined.

(** The two interleaved runs on [clean_batch]: the results come in different
    orders. *)
Lemma result_independent_of_schedule_witness :
  let σ1 := run_schedule sample_d3d sample_shader release_options second_worker_first
              (spawn 2 clean_batch) in
  let σ2 := run_schedule sample_d3d sample_shader release_options both_look_up_first
              (spawn 2 clean_batch) in
  ShaderKey <$> return_value σ1 = ["1"; "2"; "0"]
  ∧ ShaderKey <$> return_value σ2 = ["0"; "2"; "1"]
  ∧ return_value σ1 ≡ₚ return_value σ2.
Proof.
  intros σ1 σ2. split; [vm_compute; reflexivity|]. split; [vm_compute; reflexivity|].
  apply (result_independent_of_schedule sample_d3d sample_shader release_options 2
           clean_batch σ1 (return_value σ1) σ2 (return_value σ2)).
  - vm_compute. lia.
  - apply clean_batch_returns.
  - apply racing_batch_returns.
  - apply clean_batch_fault_free.
Defined.

(** ** The command line tool *)

(** Follows [main] through the calls of its [try] block: one goal for every
    way the calls can return or throw. *)
Ltac main_outcomes env argc argv :=
  unfold Main.try_catch, Main.try_block, Main.handler, mbind, Main.program_bind, Main.bind,
    Main.call, Main.when, Main.ret, Main.print, Main.empty;
  cbn [app];
  let e := fresh "e" in
  let what := fresh "what" in
  destruct (Main.init_apartment env) as [e|[]] eqn:Hinit; [destruct e as [what|]|];
  [| |let arguments := fresh "arguments" in
      destruct (Main.Parse env argc argv) as [e|arguments] eqn:Hparse;
      [destruct e as [what|]|];
      [| |let shader := fresh "shader" in
          destruct (Main.FromFile env (Main.Input arguments)) as [e|shader] eqn:Hfile;
          [destruct e as [what|]|];
          [| |destruct (bool_decide_reflect (Main.Header arguments = EmptyString))
                as [Hheader|Hheader];
              [|destruct (Main.WriteHeader env (Main.Header arguments) shader)
                  as [e|[]] eqn:Hwrite; [destruct e as [what|]|]];
              [| | |];
              try (let output := fresh "output" in
                   lazymatch goal with
                   | _ : Main.WriteHeader _ _ _ = inl _ |- _ => fail
                   | _ => idtac
                   end;
                   destruct (bool_decide_reflect (Main.Output arguments = EmptyString))
                     as [Houtput|Houtput];
                   [|destruct (Main.CompileShader env shader
                                 (Main.set_IsDebug env (Main.value_initialized env)
                                    (Main.IsDebug arguments)))
                       as [e|output] eqn:Hcompile;
                     [destruct e as [what|]
                     |destruct (bool_decide_reflect (output = [])) as [Hempty|Hempty];
                      [|destruct (Main.WriteShaderOutput env (Main.Output arguments) output)
                          as [e|[]] eqn:Hsave; [destruct e as [what|]|]]]])]]];
  cbn.

(** Two calls of one function of the environment returned the same. *)
Ltac same_calls :=
  simplify_eq;
  repeat match goal with
         | H1 : ?call = inr _, H2 : ?call = inr _ |- _ =>
             rewrite H1 in H2; injection H2 as ?; subst
         | H1 : ?call = inl _, H2 : ?call = inr _ |- _ =>
             rewrite H1 in H2; discriminate H2
         end.

Section MainProofs.
Import Main.
Context {ShaderInfo CompilationOptions CompiledShader : Type}.
Context (env : @Environment ShaderInfo CompilationOptions CompiledShader).

Lemma print_all_log texts (log : list (@event ShaderInfo CompilationOptions CompiledShader)) :
  ∃ log', print_all texts log = (inr (), log')
          ∧ ∀ e, e ∈ log' → e ∈ log ∨ ∃ text, e = printf text.
Proof.
  revert log. induction texts as [|text texts IH]; intros log.
  - exists log. split; [done|]. auto.
  - destruct (IH (log ++ [printf text])) as (log' & Hrun & Hlog').
    exists log'. split; [exact Hrun|].
    intros e [[?| ->%list_elem_of_singleton]%elem_of_app|?]%Hlog'; eauto.
Qed.

Lemma main_without_arguments argv :
  ∃ log, main env 0 argv [] = (inr 0, log) ∧ ∀ e, e ∈ log → ∃ text, e = printf text.
Proof.
  unfold main. cbn [Z.eqb].
  destruct (print_all_log usage []) as (log' & Hrun & Hlog).
  exists log'. unfold mbind, program_bind, bind. rewrite Hrun. split; [done|].
  intros e [?%elem_of_nil|?]%Hlog; done.
Qed.

(** X13. The exit status of the tool.  [main] lets no exception escape and
    returns 0 or -1.  It returns 0 exactly when it was started without
    arguments at all or every call it made returned: the header is written
    only if a header path was given, the shader is compiled only if an output
    path was given, and the output is written only if [CompileShader] returned
    something.  In particular a shader group whose compilation failed, for
    which [CompileShader] returns the empty sequence, ends in exit status 0.
    Exit status -1 comes after the message that names the exception. *)
Theorem main_exit_status argc argv :
  ((main env argc argv []).1 = inr 0 ∨ (main env argc argv []).1 = inr (-1))
  ∧ ((main env argc argv []).1 = inr 0
     ↔ argc = 0
       ∨ ∃ arguments shader,
           init_apartment env = inr ()
           ∧ Parse env argc argv = inr arguments
           ∧ FromFile env (Input arguments) = inr shader
           ∧ (Header arguments = "" ∨ WriteHeader env (Header arguments) shader = inr ())
           ∧ (Output arguments = ""
              ∨ ∃ output,
                  CompileShader env shader
                    (set_IsDebug env (value_initialized env) (IsDebug arguments))
                  = inr output
                  ∧ (output = []
                     ∨ WriteShaderOutput env (Output arguments) output = inr ())))
  ∧ ((main env argc argv []).1 = inr (-1) →
     ∃ text, last (main env argc argv []).2
             = Some (printf ("Shader group compilation failed: " +:+ text))).
Proof.
  destruct (Z.eqb_spec argc 0) as [->|Hargc].
  { destruct (main_without_arguments argv) as (log & -> & _). cbn.
    split; [by left|]. split; [by split; [left|]|done]. }
  unfold main. rewrite (proj2 (Z.eqb_neq argc 0) Hargc).
  main_outcomes env argc argv.
  all: split; [auto|]; split;
    [split;
     [intros Hcode;
      first [discriminate Hcode
            |right; eexists _, _; split_and!; eauto 10]
     |first [done
            |intros [?|(a & s & H1 & H2 & H3 & H4 & H5)]; [done|];
             same_calls;
             try (destruct H4 as [H4|H4]; same_calls; try done;
                  destruct H5 as [H5|(o & H5 & [H6|H6])]; same_calls; done)]]
    |intros Hcode; first [discriminate Hcode | eexists; reflexivity]].
Qed.

(** X14. What the tool writes, and when.  The header is written exactly when
    a header path was given, whether or not the shader is compiled after it
    and whatever comes of that.  [CompileShader] is called exactly when an
    output path was given and the header, if one was asked for, has been
    written; its options are value-initialized but for [IsDebug], which is the
    one of the command line.  [WriteShaderOutput] is called exactly when
    [CompileShader] returned a sequence that is not empty, with that sequence
    and the output path: nothing is written for a shader group whose
    compilation failed. *)
Theorem main_compiles_and_writes argc argv :
  (∀ path shader,
     call_WriteHeader path shader ∈ (main env argc argv []).2
     ↔ argc ≠ 0
       ∧ ∃ arguments,
           init_apartment env = inr ()
           ∧ Parse env argc argv = inr arguments
           ∧ FromFile env (Input arguments) = inr shader
           ∧ path = Header arguments ∧ path ≠ "")
  ∧ (∀ shader options,
       call_CompileShader shader options ∈ (main env argc argv []).2
       ↔ argc ≠ 0
         ∧ ∃ arguments,
             init_apartment env = inr ()
             ∧ Parse env argc argv = inr arguments
             ∧ FromFile env (Input arguments) = inr shader
             ∧ (Header arguments = "" ∨ WriteHeader env (Header arguments) shader = inr ())
             ∧ Output arguments ≠ ""
             ∧ options = set_IsDebug env (value_initialized env) (IsDebug arguments))
  ∧ (∀ path output,
       call_WriteShaderOutput path output ∈ (main env argc argv []).2
       ↔ argc ≠ 0
         ∧ ∃ arguments shader,
             init_apartment env = inr ()
             ∧ Parse env argc argv = inr arguments
             ∧ FromFile env (Input arguments) = inr shader
             ∧ (Header arguments = "" ∨ WriteHeader env (Header arguments) shader = inr ())
             ∧ path = Output arguments ∧ path ≠ ""
             ∧ CompileShader env shader
                 (set_IsDebug env (value_initialized env) (IsDebug arguments))
               = inr output
             ∧ output ≠ []).
Proof.
  destruct (Z.eqb_spec argc 0) as [->|Hargc].
  { destruct (main_without_arguments argv) as (log & -> & Hlog). cbn.
    split_and!; intros ??; (split; [intros [? [=]]%Hlog|by intros [? _]]). }
  unfold main. rewrite (proj2 (Z.eqb_neq argc 0) Hargc).
  main_outcomes env argc argv.
  all: split_and!; intros x y; rewrite ?elem_of_cons, elem_of_nil;
    (split;
     [intros Hin; repeat (destruct Hin as [Hin|Hin]);
      first [done
            |injection Hin as ??; subst; split; [done|]; repeat esplit; by eauto]
     |]).
  all: try (intros (_ & a & H1 & H2 & H3 & -> & H5); same_calls; try done; by auto 10).
  all: try (intros (_ & a & H1 & H2 & H3 & [H4|H4] & H5 & ->);
            same_calls; try done; by auto 10).
  all: try (intros (_ & a & s & H1 & H2 & H3 & [H4|H4] & -> & H6 & H7 & H8);
            same_calls; try done; by auto 10).
Qed.
End MainProofs.
